(** * MultiServerClient: aggregation and routing over several MCP servers

    A shallow embedding of [src/multi_server_client/multi_server_client.py]
    and the properties of its connect sequence, its listings and its
    three routed calls.

    Conventions of the embedding.
    - The three dictionaries [sessions], [tool_to_server] and
      [prompt_to_server] are only ever looked up by key, so they are
      finite maps.  [capabilities] is iterated by the listings, so it is
      an insertion-ordered dictionary (an association list whose keys are
      unique; assigning to a present key keeps the key's position).
    - Everything that crosses the process boundary (spawning a server,
      the handshake, the four discovery queries) is read from a [World],
      the record of what the outside answered.
    - A routed call ends either with a value, with an exception raised by
      the client itself, or with [return await session.<call>(...)]: the
      last one is kept as the event [Forwarded], the session and request
      it names being what the router decided.
    - The [AsyncExitStack] only releases the connections when its scope
      is left; it plays no part in what the client stores or routes and
      is left out. *)

From Stdlib Require Import String Ascii ZArith List.
From stdpp Require Import gmap strings list fin_maps.

Open Scope string_scope.
Open Scope list_scope.

(** ** Exceptions *)

(** The subclasses of Python's [Exception] that the module raises or
    meets, which are what [except Exception] catches.  [OtherError]
    stands for the remaining ones (OSError, TimeoutError,
    pydantic.ValidationError, json.JSONDecodeError, ...). *)
Inductive Exn : Type :=
| McpError (code : Z) (message : string)
| ValueError (message : string)
| KeyError (key : string)
| FileNotFoundError (message : string)
| OtherError (message : string).

(** ** MCP payload types (the fields the client reads or rewrites) *)

#[local] Unset Elimination Schemes.
Inductive Json : Type :=
| JNull
| JBool (b : bool)
| JNum (z : Z)
| JStr (s : string)
| JArr (items : list Json)
| JObj (fields : list (string * Json)).
#[local] Set Elimination Schemes.

Record Tool : Type := mkTool {
  tool_name : string;
  tool_description : option string;
  tool_inputSchema : Json;
  tool_meta : option (gmap string Json)
}.

Record Resource : Type := mkResource {
  resource_uri : string;
  resource_name : string;
  resource_mimeType : option string;
  resource_meta : option (gmap string Json)
}.

Record ResourceTemplate : Type := mkResourceTemplate {
  template_uriTemplate : string;
  template_name : string;
  template_mimeType : option string;
  template_meta : option (gmap string Json)
}.

Record Prompt : Type := mkPrompt {
  prompt_name : string;
  prompt_description : option string;
  prompt_arguments : list string;
  prompt_meta : option (gmap string Json)
}.

Record ListToolsResult : Type := mkListToolsResult {
  tools : list Tool;
  tools_nextCursor : option string
}.

Record ListResourcesResult : Type := mkListResourcesResult {
  resources : list Resource;
  resources_nextCursor : option string
}.

Record ListResourceTemplatesResult : Type := mkListResourceTemplatesResult {
  resourceTemplates : list ResourceTemplate;
  templates_nextCursor : option string
}.

Record ListPromptsResult : Type := mkListPromptsResult {
  prompts : list Prompt;
  prompts_nextCursor : option string
}.

Record TextContent : Type := mkTextContent {
  content_type : string;
  text : string
}.

Record CallToolResult : Type := mkCallToolResult {
  content : list TextContent;
  isError : bool
}.

(** [pydantic.AnyUrl(s)]: the client only ever builds it from a string
    and hands it to the session. *)
Variant AnyUrl : Type := mkAnyUrl (s : string).

(** ** Configuration *)

Record ServerConfig : Type := mkServerConfig {
  command : string;
  args : list string
}.

(** [MCPServersConfig.mcpServers], in the order [items()] yields it. *)
Abbreviation MCPServersConfig := (list (string * ServerConfig)).

Record StdioServerParameters : Type := mkStdioServerParameters {
  params_command : string;
  params_args : list string
}.

(** ** Sessions and the outside world *)

Module ClientSession.
(** One connection handle.  [id] is the identity of the Python object;
    the other fields are what the server answers to the handshake and
    to each discovery query ([inl e]: the awaited call raises [e]). *)
Record t : Type := mk {
  id : nat;
  initialize : Exn + unit;
  list_tools : Exn + ListToolsResult;
  list_resources : Exn + ListResourcesResult;
  list_resource_templates : Exn + ListResourceTemplatesResult;
  list_prompts : Exn + ListPromptsResult
}.
End ClientSession.

(** What happens when the client opens a connection on behalf of the
    provider [server_name]: entering [stdio_client(params)] and then
    [ClientSession(read, write)] on the exit stack either raises or
    yields a session. *)
Definition World : Type :=
  string -> StdioServerParameters -> Exn + ClientSession.t.

(** ** Client state *)

Record ServerCapabilities : Type := mkServerCapabilities {
  caps_name : string;
  caps_tools : option ListToolsResult;
  caps_resources : option ListResourcesResult;
  caps_resource_templates : option ListResourceTemplatesResult;
  caps_prompts : option ListPromptsResult
}.

Record MultiServerClient : Type := mkClient {
  sessions : gmap string ClientSession.t;
  capabilities : list (string * ServerCapabilities);
  tool_to_server : gmap string string;
  prompt_to_server : gmap string string
}.

(** [MultiServerClient.__init__] *)
Definition init : MultiServerClient :=
  {| sessions := ∅; capabilities := []; tool_to_server := ∅;
     prompt_to_server := ∅ |}.

(** *** Insertion-ordered dictionary *)

Section Dict.
Context {V : Type}.

(** [d.get(k)] *)
Fixpoint dict_get (k : string) (d : list (string * V)) : option V :=
  match d with
  | [] => None
  | (k', v) :: d' => if decide (k = k') then Some v else dict_get k d'
  end.

(** [d[k] = v] *)
Fixpoint dict_set (k : string) (v : V) (d : list (string * V))
  : list (string * V) :=
  match d with
  | [] => [(k, v)]
  | (k', v') :: d' =>
      if decide (k = k') then (k, v) :: d' else (k', v') :: dict_set k v d'
  end.

(** [d.keys()] *)
Definition dict_keys (d : list (string * V)) : list string := d.*1.

End Dict.

(** *** Log records *)

Variant Kind : Type := KTool | KResource | KResourceTemplate | KPrompt.

Inductive LogRecord : Type :=
| Info_connecting_to (n : nat)
| Info_connecting (server_name : string)
| Info_found (server_name : string) (kind : Kind) (n : nat)
| Info_connected (n : nat)
| Warn_collision (kind : Kind) (name existing_server server_name : string)
| Warn_none_available (server_name : string) (kind : Kind) (e : Exn)
| Warn_failed_to_connect (server_name : string) (e : Exn).

(** ** The client's monad: state, log and exceptions

    A computation runs on the client and the log written so far and ends
    with a value or with an exception.  As in Python, what was assigned
    before an exception is raised stays assigned. *)

Definition Mem : Type := MultiServerClient * list LogRecord.

Definition M (A : Type) : Type := Mem -> (Exn + A) * Mem.

Definition ret {A} (a : A) : M A := fun w => (inr a, w).

Definition raise {A} (e : Exn) : M A := fun w => (inl e, w).

Definition bind {A B} (m : M A) (k : A -> M B) : M B :=
  fun w => match m w with
           | (inl e, w') => (inl e, w')
           | (inr a, w') => k a w'
           end.

Notation "x <- m ;; k" := (bind m (fun x => k))
  (at level 100, m at next level, right associativity).
Notation "m ;; k" := (bind m (fun _ => k))
  (at level 100, right associativity).

(** [try: body except Exception as e: handler e] *)
Definition try_except {A} (body : M A) (handler : Exn -> M A) : M A :=
  fun w => match body w with
           | (inl e, w') => handler e w'
           | (inr a, w') => (inr a, w')
           end.

(** [await f(...)] for a call answered by the outside. *)
Definition await {A} (answer : Exn + A) : M A := fun w => (answer, w).

Definition get_self : M MultiServerClient := fun w => (inr w.1, w).

Definition set_self (f : MultiServerClient -> MultiServerClient) : M unit :=
  fun w => (inr tt, (f w.1, w.2)).

(** [logger.info(...)] and [logger.warning(...)] *)
Definition logger (r : LogRecord) : M unit :=
  fun w => (inr tt, (w.1, w.2 ++ [r])).

(** [for x in l: body x] *)
Fixpoint for_each {A} (l : list A) (body : A -> M unit) : M unit :=
  match l with
  | [] => ret tt
  | x :: l' => body x ;; for_each l' body
  end.

(** *** Field assignments *)

Definition set_session (k : string) (s : ClientSession.t)
  (c : MultiServerClient) : MultiServerClient :=
  {| sessions := <[k := s]> (sessions c);
     capabilities := capabilities c;
     tool_to_server := tool_to_server c;
     prompt_to_server := prompt_to_server c |}.

Definition set_capabilities (k : string) (v : ServerCapabilities)
  (c : MultiServerClient) : MultiServerClient :=
  {| sessions := sessions c;
     capabilities := dict_set k v (capabilities c);
     tool_to_server := tool_to_server c;
     prompt_to_server := prompt_to_server c |}.

Definition set_tool_to_server (k v : string)
  (c : MultiServerClient) : MultiServerClient :=
  {| sessions := sessions c;
     capabilities := capabilities c;
     tool_to_server := <[k := v]> (tool_to_server c);
     prompt_to_server := prompt_to_server c |}.

Definition set_prompt_to_server (k v : string)
  (c : MultiServerClient) : MultiServerClient :=
  {| sessions := sessions c;
     capabilities := capabilities c;
     tool_to_server := tool_to_server c;
     prompt_to_server := <[k := v]> (prompt_to_server c) |}.

Definition with_tools (r : ListToolsResult) (c : ServerCapabilities)
  : ServerCapabilities :=
  {| caps_name := caps_name c; caps_tools := Some r;
     caps_resources := caps_resources c;
     caps_resource_templates := caps_resource_templates c;
     caps_prompts := caps_prompts c |}.

Definition with_resources (r : ListResourcesResult) (c : ServerCapabilities)
  : ServerCapabilities :=
  {| caps_name := caps_name c; caps_tools := caps_tools c;
     caps_resources := Some r;
     caps_resource_templates := caps_resource_templates c;
     caps_prompts := caps_prompts c |}.

Definition with_resource_templates (r : ListResourceTemplatesResult)
  (c : ServerCapabilities) : ServerCapabilities :=
  {| caps_name := caps_name c; caps_tools := caps_tools c;
     caps_resources := caps_resources c;
     caps_resource_templates := Some r;
     caps_prompts := caps_prompts c |}.

Definition with_prompts (r : ListPromptsResult) (c : ServerCapabilities)
  : ServerCapabilities :=
  {| caps_name := caps_name c; caps_tools := caps_tools c;
     caps_resources := caps_resources c;
     caps_resource_templates := caps_resource_templates c;
     caps_prompts := Some r |}.

(** ** The connect sequence *)

(** The loop of lines 189-198: warn when the name is already bound, then
    bind it to [server_name]. *)
Definition map_tool (server_name : string) (tool : Tool) : M unit :=
  self <- get_self ;;
  match tool_to_server self !! tool_name tool with
  | Some existing_server =>
      logger (Warn_collision KTool (tool_name tool) existing_server server_name)
  | None => ret tt
  end ;;
  set_self (set_tool_to_server (tool_name tool) server_name).

(** The loop of lines 226-235. *)
Definition map_prompt (server_name : string) (prompt : Prompt) : M unit :=
  self <- get_self ;;
  match prompt_to_server self !! prompt_name prompt with
  | Some existing_server =>
      logger (Warn_collision KPrompt (prompt_name prompt) existing_server
                server_name)
  | None => ret tt
  end ;;
  set_self (set_prompt_to_server (prompt_name prompt) server_name).

(** [MultiServerClient._connect_server].  The local [capabilities] object
    is threaded as a value: each [try] yields the object as its body left
    it, and the handler yields it untouched (in a body, nothing after the
    assignment to the object can raise). *)
Definition _connect_server (world : World) (server_name : string)
  (server_config : ServerConfig) : M unit :=
  logger (Info_connecting server_name) ;;
  let params :=
    mkStdioServerParameters (command server_config) (args server_config) in
  session <- await (world server_name params) ;;
  await (ClientSession.initialize session) ;;
  set_self (set_session server_name session) ;;
  let capabilities := mkServerCapabilities server_name None None None None in
  capabilities <-
    try_except
      (tools_result <- await (ClientSession.list_tools session) ;;
       let capabilities := with_tools tools_result capabilities in
       logger (Info_found server_name KTool (length (tools tools_result))) ;;
       for_each (tools tools_result) (map_tool server_name) ;;
       ret capabilities)
      (fun e =>
         logger (Warn_none_available server_name KTool e) ;;
         ret capabilities) ;;
  capabilities <-
    try_except
      (resources_result <- await (ClientSession.list_resources session) ;;
       let capabilities := with_resources resources_result capabilities in
       logger (Info_found server_name KResource
                 (length (resources resources_result))) ;;
       ret capabilities)
      (fun e =>
         logger (Warn_none_available server_name KResource e) ;;
         ret capabilities) ;;
  capabilities <-
    try_except
      (templates_result <-
         await (ClientSession.list_resource_templates session) ;;
       let capabilities :=
         with_resource_templates templates_result capabilities in
       logger (Info_found server_name KResourceTemplate
                 (length (resourceTemplates templates_result))) ;;
       ret capabilities)
      (fun e =>
         logger (Warn_none_available server_name KResourceTemplate e) ;;
         ret capabilities) ;;
  capabilities <-
    try_except
      (prompts_result <- await (ClientSession.list_prompts session) ;;
       let capabilities := with_prompts prompts_result capabilities in
       logger (Info_found server_name KPrompt
                 (length (prompts prompts_result))) ;;
       for_each (prompts prompts_result) (map_prompt server_name) ;;
       ret capabilities)
      (fun e =>
         logger (Warn_none_available server_name KPrompt e) ;;
         ret capabilities) ;;
  set_self (set_capabilities server_name capabilities).

(** [MultiServerClient.connect_all].  [loaded] is what
    [self.load_config()] gives: the parsed configuration, or the
    exception it raises on a missing or malformed file. *)
Definition connect_all (world : World) (loaded : Exn + MCPServersConfig)
  : M unit :=
  config <- await loaded ;;
  logger (Info_connecting_to (length config)) ;;
  for_each config (fun '(server_name, server_config) =>
    try_except
      (_connect_server world server_name server_config)
      (fun e => logger (Warn_failed_to_connect server_name e))) ;;
  self <- get_self ;;
  logger (Info_connected (size (sessions self))).

(** ** Listings *)

Definition pagination_not_supported : Exn :=
  ValueError "Pagination not supported for multi-server aggregation".

(** [{**existing_meta, "serverName": server_name}] with
    [existing_meta = entry.meta or {}] *)
Definition meta_with_server (meta : option (gmap string Json))
  (server_name : string) : option (gmap string Json) :=
  let existing_meta := default ∅ meta in
  Some (<["serverName" := JStr server_name]> existing_meta).

(** [MultiServerClient.list_tools] *)
Definition list_tools (cursor : option string) : M ListToolsResult :=
  match cursor with
  | Some _ => raise pagination_not_supported
  | None =>
      self <- get_self ;;
      let all_tools :=
        foldl (fun all_tools '(server_name, capabilities) =>
          match caps_tools capabilities with
          | Some result =>
              foldl (fun all_tools tool =>
                let tool_with_meta :=
                  {| tool_name := tool_name tool;
                     tool_description := tool_description tool;
                     tool_inputSchema := tool_inputSchema tool;
                     tool_meta :=
                       meta_with_server (tool_meta tool) server_name |} in
                all_tools ++ [tool_with_meta])
              all_tools (tools result)
          | None => all_tools
          end) [] (capabilities self) in
      ret {| tools := all_tools; tools_nextCursor := None |}
  end.

(** [MultiServerClient.list_prompts] *)
Definition list_prompts (cursor : option string) : M ListPromptsResult :=
  match cursor with
  | Some _ => raise pagination_not_supported
  | None =>
      self <- get_self ;;
      let all_prompts :=
        foldl (fun all_prompts '(server_name, capabilities) =>
          match caps_prompts capabilities with
          | Some result =>
              foldl (fun all_prompts prompt =>
                let prompt_with_meta :=
                  {| prompt_name := prompt_name prompt;
                     prompt_description := prompt_description prompt;
                     prompt_arguments := prompt_arguments prompt;
                     prompt_meta :=
                       meta_with_server (prompt_meta prompt) server_name |} in
                all_prompts ++ [prompt_with_meta])
              all_prompts (prompts result)
          | None => all_prompts
          end) [] (capabilities self) in
      ret {| prompts := all_prompts; prompts_nextCursor := None |}
  end.

(** [MultiServerClient.list_resources] *)
Definition list_resources (cursor : option string) (use_namespace : bool)
  : M ListResourcesResult :=
  match cursor with
  | Some _ => raise pagination_not_supported
  | None =>
      self <- get_self ;;
      let all_resources :=
        foldl (fun all_resources '(server_name, capabilities) =>
          match caps_resources capabilities with
          | Some result =>
              foldl (fun all_resources resource =>
                let resource_with_meta :=
                  {| resource_uri :=
                       if use_namespace
                       then server_name +:+ ":" +:+ resource_uri resource
                       else resource_uri resource;
                     resource_name := resource_name resource;
                     resource_mimeType := resource_mimeType resource;
                     resource_meta :=
                       meta_with_server (resource_meta resource)
                         server_name |} in
                all_resources ++ [resource_with_meta])
              all_resources (resources result)
          | None => all_resources
          end) [] (capabilities self) in
      ret {| resources := all_resources; resources_nextCursor := None |}
  end.

(** [MultiServerClient.list_resource_templates] *)
Definition list_resource_templates (cursor : option string)
  (use_namespace : bool) : M ListResourceTemplatesResult :=
  match cursor with
  | Some _ => raise pagination_not_supported
  | None =>
      self <- get_self ;;
      let all_templates :=
        foldl (fun all_templates '(server_name, capabilities) =>
          match caps_resource_templates capabilities with
          | Some result =>
              foldl (fun all_templates template =>
                let template_with_meta :=
                  {| template_uriTemplate :=
                       if use_namespace
                       then server_name +:+ ":" +:+
                            template_uriTemplate template
                       else template_uriTemplate template;
                     template_name := template_name template;
                     template_mimeType := template_mimeType template;
                     template_meta :=
                       meta_with_server (template_meta template)
                         server_name |} in
                all_templates ++ [template_with_meta])
              all_templates (resourceTemplates result)
          | None => all_templates
          end) [] (capabilities self) in
      ret {| resourceTemplates := all_templates;
             templates_nextCursor := None |}
  end.

(** ** Routed calls *)

(** A request handed to a session by [return await session.<call>(...)]. *)
Inductive Request : Type :=
| Call_tool (name : string) (arguments : gmap string Json)
    (read_timeout_seconds : option Z) (progress_callback : option nat)
| Read_resource (uri : AnyUrl)
| Get_prompt (name : string) (arguments : gmap string string).

(** How a routed call ends: a value built by the client, an exception
    raised by the client, or the call handed over to a session, whose
    answer or exception is then the caller's, unchanged. *)
Inductive Outcome (R : Type) : Type :=
| Returned (r : R)
| Raised (e : Exn)
| Forwarded (session : ClientSession.t) (request : Request).

Arguments Returned {R} r.
Arguments Raised {R} e.
Arguments Forwarded {R} session request.

(** [MultiServerClient._create_error_result] *)
Definition _create_error_result (error_message : string) : CallToolResult :=
  {| content := [ {| content_type := "text"; text := error_message |} ];
     isError := true |}.

(** Python truth value of a string. *)
Definition truthy (s : string) : bool :=
  match s with EmptyString => false | _ => true end.

(** [MultiServerClient.call_tool] *)
Definition call_tool (self : MultiServerClient) (name : string)
  (arguments : gmap string Json) (read_timeout_seconds : option Z)
  (progress_callback : option nat) (server_name : option string)
  : Outcome CallToolResult :=
  let forward (server_name : string) : Outcome CallToolResult :=
    match sessions self !! server_name with
    | Some session =>
        Forwarded session
          (Call_tool name arguments read_timeout_seconds progress_callback)
    | None => Raised (KeyError server_name)
    end in
  match server_name with
  | None =>
      match tool_to_server self !! name with
      | Some server_name =>
          if truthy server_name then forward server_name
          else Returned (_create_error_result ("Unknown tool: " +:+ name))
      | None => Returned (_create_error_result ("Unknown tool: " +:+ name))
      end
  | Some server_name =>
      if decide (is_Some (sessions self !! server_name)) then
        match dict_get server_name (capabilities self) with
        | None => Raised (KeyError server_name)
        | Some server_capabilities =>
            match caps_tools server_capabilities with
            | None =>
                Returned (_create_error_result
                  ("Server '" +:+ server_name +:+ "' has no tools"))
            | Some result =>
                if decide (name ∈ tool_name <$> tools result)
                then forward server_name
                else Returned (_create_error_result
                  ("Tool '" +:+ name +:+ "' not found in server '" +:+
                   server_name +:+ "'"))
            end
        end
      else Returned (_create_error_result
             ("Unknown server: " +:+ server_name))
  end.

(** [":" in s] *)
Fixpoint contains_colon (s : string) : bool :=
  match s with
  | EmptyString => false
  | String c s' => if Ascii.eqb c ":" then true else contains_colon s'
  end.

(** [s.split(":", 1)] *)
Fixpoint split_colon_once (s : string) : list string :=
  match s with
  | EmptyString => [""]
  | String c s' =>
      if Ascii.eqb c ":" then [""; s']
      else match split_colon_once s' with
           | head :: rest => String c head :: rest
           | [] => []
           end
  end.


(** [MultiServerClient.get_prompt] *)
Definition get_prompt (self : MultiServerClient) (name : string)
  (arguments : option (gmap string string)) (server_name : option string)
  : Outcome unit :=
  let forward (server_name : string) : Outcome unit :=
    match sessions self !! server_name with
    | Some session =>
        Forwarded session (Get_prompt name (default ∅ arguments))
    | None => Raised (KeyError server_name)
    end in
  match server_name with
  | None =>
      match prompt_to_server self !! name with
      | Some server_name =>
          if truthy server_name then forward server_name
          else Raised (McpError (-32601) ("Unknown prompt: " +:+ name))
      | None => Raised (McpError (-32601) ("Unknown prompt: " +:+ name))
      end
  | Some server_name =>
      if decide (is_Some (sessions self !! server_name)) then
        match dict_get server_name (capabilities self) with
        | None => Raised (KeyError server_name)
        | Some server_capabilities =>
            match caps_prompts server_capabilities with
            | None =>
                Raised (McpError (-32601)
                  ("Server '" +:+ server_name +:+ "' has no prompts"))
            | Some result =>
                if decide (name ∈ prompt_name <$> prompts result)
                then forward server_name
                else Raised (McpError (-32601)
                  ("Prompt '" +:+ name +:+ "' not found in server '" +:+
                   server_name +:+ "'"))
            end
        end
      else Raised (McpError (-32601) ("Unknown server: " +:+ server_name))
  end.

(** ** The connect sequence in closed form

    The definitions below describe, without the monad, the client and the
    log that one provider's connection leaves behind; the run lemmas of
    the second part show that [_connect_server] and [connect_all] compute
    exactly these. *)

(** Opening the connection and the handshake: the part of
    [_connect_server] that may raise. *)
Definition handshake (world : World) (server_name : string)
  (server_config : ServerConfig) : Exn + ClientSession.t :=
  match world server_name
          (mkStdioServerParameters (command server_config)
             (args server_config)) with
  | inl e => inl e
  | inr session =>
      match ClientSession.initialize session with
      | inl e => inl e
      | inr _ => inr session
      end
  end.

Definition answered {A} (answer : Exn + A) : option A :=
  match answer with inr a => Some a | inl _ => None end.

(** The snapshot stored for a provider: each kind is the answer to its
    own query, absent when that query raised. *)
Definition snapshot (server_name : string) (session : ClientSession.t)
  : ServerCapabilities :=
  {| caps_name := server_name;
     caps_tools := answered (ClientSession.list_tools session);
     caps_resources := answered (ClientSession.list_resources session);
     caps_resource_templates :=
       answered (ClientSession.list_resource_templates session);
     caps_prompts := answered (ClientSession.list_prompts session) |}.

Definition advertised_tools (session : ClientSession.t) : list string :=
  match ClientSession.list_tools session with
  | inr result => tool_name <$> tools result
  | inl _ => []
  end.

Definition advertised_prompts (session : ClientSession.t) : list string :=
  match ClientSession.list_prompts session with
  | inr result => prompt_name <$> prompts result
  | inl _ => []
  end.

(** Binding every name of a list to one server, in list order. *)
Definition bind_all (server_name : string) (names : list string)
  (table : gmap string string) : gmap string string :=
  foldl (fun table name => <[name := server_name]> table) table names.

Definition registered (server_name : string) (session : ClientSession.t)
  (self : MultiServerClient) : MultiServerClient :=
  {| sessions := <[server_name := session]> (sessions self);
     capabilities :=
       dict_set server_name (snapshot server_name session)
         (capabilities self);
     tool_to_server :=
       bind_all server_name (advertised_tools session) (tool_to_server self);
     prompt_to_server :=
       bind_all server_name (advertised_prompts session)
         (prompt_to_server self) |}.

Definition after_connect (world : World) (self : MultiServerClient)
  (entry : string * ServerConfig) : MultiServerClient :=
  match handshake world entry.1 entry.2 with
  | inr session => registered entry.1 session self
  | inl _ => self
  end.

Fixpoint collisions (kind : Kind) (server_name : string)
  (names : list string) (table : gmap string string) : list LogRecord :=
  match names with
  | [] => []
  | name :: names' =>
      match table !! name with
      | Some existing_server =>
          [Warn_collision kind name existing_server server_name]
      | None => []
      end ++ collisions kind server_name names' (<[name := server_name]> table)
  end.

Definition discovery_log (server_name : string) (session : ClientSession.t)
  (self : MultiServerClient) : list LogRecord :=
  match ClientSession.list_tools session with
  | inr result =>
      Info_found server_name KTool (length (tools result))
      :: collisions KTool server_name (tool_name <$> tools result)
           (tool_to_server self)
  | inl e => [Warn_none_available server_name KTool e]
  end ++
  match ClientSession.list_resources session with
  | inr result => [Info_found server_name KResource (length (resources result))]
  | inl e => [Warn_none_available server_name KResource e]
  end ++
  match ClientSession.list_resource_templates session with
  | inr result =>
      [Info_found server_name KResourceTemplate
         (length (resourceTemplates result))]
  | inl e => [Warn_none_available server_name KResourceTemplate e]
  end ++
  match ClientSession.list_prompts session with
  | inr result =>
      Info_found server_name KPrompt (length (prompts result))
      :: collisions KPrompt server_name (prompt_name <$> prompts result)
           (prompt_to_server self)
  | inl e => [Warn_none_available server_name KPrompt e]
  end.

Definition log_of_connect (world : World) (self : MultiServerClient)
  (entry : string * ServerConfig) : list LogRecord :=
  Info_connecting entry.1 ::
  match handshake world entry.1 entry.2 with
  | inr session => discovery_log entry.1 session self
  | inl e => [Warn_failed_to_connect entry.1 e]
  end.

Definition connect_step (world : World) (w : Mem)
  (entry : string * ServerConfig) : Mem :=
  (after_connect world w.1 entry, w.2 ++ log_of_connect world w.1 entry).

(** Whether the provider of a configuration entry connects and then
    advertises the name, for the kind whose names [advertised] lists. *)
Definition advertises (advertised : ClientSession.t -> list string)
  (world : World) (entry : string * ServerConfig) (name : string) : bool :=
  match handshake world entry.1 entry.2 with
  | inr session => bool_decide (name ∈ advertised session)
  | inl _ => false
  end.

(** The last provider of the configuration that advertises the name. *)
Fixpoint last_owner (advertised : ClientSession.t -> list string)
  (world : World) (config : MCPServersConfig) (name : string)
  : option string :=
  match config with
  | [] => None
  | entry :: config' =>
      match last_owner advertised world config' name with
      | Some owner => Some owner
      | None =>
          if advertises advertised world entry name then Some entry.1
          else None
      end
  end.

(** Whether the provider of a configuration entry gets through opening
    and handshake. *)
Definition connected (world : World) (entry : string * ServerConfig) : bool :=
  match handshake world entry.1 entry.2 with
  | inr _ => true
  | inl _ => false
  end.

(** Two providers that both advertise a name which none of [others]
    advertises. *)
Definition collide (advertised : ClientSession.t -> list string)
  (world : World) (a b : string * ServerConfig)
  (others : MCPServersConfig) (name : string) : Prop :=
  advertises advertised world a name = true /\
  advertises advertised world b name = true /\
  forall entry, entry ∈ others -> advertises advertised world entry name = false.

(** The clients a program can hold: a fresh one, and one on which
    [connect_all] has run, any number of times, against any world and
    any outcome of loading the configuration. *)
Inductive reachable : MultiServerClient -> Prop :=
| reachable_init : reachable init
| reachable_connect_all world loaded self log :
    reachable self ->
    reachable (connect_all world loaded (self, log)).2.1.

(** ** The listings as the specification words them

    The concatenation, in the order [capabilities] is iterated and then
    in snapshot order, of every snapshot's entries of one kind, each
    rewritten by [attribute]. *)
Definition aggregated {A} (entries : ServerCapabilities -> option (list A))
  (attribute : string -> A -> A) (self : MultiServerClient) : list A :=
  flat_map (fun '(server_name, snap) =>
              attribute server_name <$> default [] (entries snap))
    (capabilities self).

Definition meta_of (meta : option (gmap string Json)) : gmap string Json :=
  default ∅ meta.

Definition namespaced (use_namespace : bool) (server_name uri : string)
  : string :=
  if use_namespace then server_name +:+ ":" +:+ uri else uri.

Definition attributed_tool (server_name : string) (tool : Tool) : Tool :=
  {| tool_name := tool_name tool;
     tool_description := tool_description tool;
     tool_inputSchema := tool_inputSchema tool;
     tool_meta :=
       Some (<["serverName" := JStr server_name]> (meta_of (tool_meta tool)))
  |}.

Definition attributed_prompt (server_name : string) (prompt : Prompt)
  : Prompt :=
  {| prompt_name := prompt_name prompt;
     prompt_description := prompt_description prompt;
     prompt_arguments := prompt_arguments prompt;
     prompt_meta :=
       Some (<["serverName" := JStr server_name]>
               (meta_of (prompt_meta prompt))) |}.

Definition attributed_resource (use_namespace : bool) (server_name : string)
  (resource : Resource) : Resource :=
  {| resource_uri :=
       namespaced use_namespace server_name (resource_uri resource);
     resource_name := resource_name resource;
     resource_mimeType := resource_mimeType resource;
     resource_meta :=
       Some (<["serverName" := JStr server_name]>
               (meta_of (resource_meta resource))) |}.

Definition attributed_template (use_namespace : bool) (server_name : string)
  (template : ResourceTemplate) : ResourceTemplate :=
  {| template_uriTemplate :=
       namespaced use_namespace server_name (template_uriTemplate template);
     template_name := template_name template;
     template_mimeType := template_mimeType template;
     template_meta :=
       Some (<["serverName" := JStr server_name]>
               (meta_of (template_meta template))) |}.

(** ** Consistency of the four dictionaries

    [sessions] and [capabilities] have the same keys, and each routing
    table only names servers that have a session. *)
Definition consistent (self : MultiServerClient) : Prop :=
  (forall k, is_Some (sessions self !! k) <->
             is_Some (dict_get k (capabilities self))) /\
  (forall name k, tool_to_server self !! name = Some k ->
                  is_Some (sessions self !! k)) /\
  (forall name k, prompt_to_server self !! name = Some k ->
                  is_Some (sessions self !! k)).

(** ** Concrete servers and worlds for the examples *)

Definition plain_tool (name : string) : Tool := mkTool name None JNull None.

Definition plain_prompt (name : string) : Prompt := mkPrompt name None [] None.

Definition plain_resource (uri name : string) : Resource :=
  mkResource uri name None None.

(** A session that answers the handshake and every discovery query. *)
Definition serving (id : nat) (ts : list Tool) (rs : list Resource)
  (ps : list Prompt) : ClientSession.t :=
  ClientSession.mk id (inr tt)
    (inr (mkListToolsResult ts None))
    (inr (mkListResourcesResult rs None))
    (inr (mkListResourceTemplatesResult [] None))
    (inr (mkListPromptsResult ps None)).

Definition session_A : ClientSession.t :=
  serving 1 [plain_tool "x"; plain_tool "n"]
    [plain_resource "inventory://overview" "overview"] [plain_prompt "p"].

Definition session_B : ClientSession.t :=
  serving 2 [plain_tool "y"; plain_tool "n"] [] [plain_prompt "p"].

(** Servers [A] and [B] answer; any other spawn fails. *)
Definition two_servers : World :=
  fun server_name _ =>
    if decide (server_name = "A") then inr session_A
    else if decide (server_name = "B") then inr session_B
    else inl (OtherError "spawn failed").

(** No server answers. *)
Definition no_server : World :=
  fun _ _ => inl (OtherError "spawn failed").

Definition config_A : string * ServerConfig :=
  ("A", mkServerConfig "python" ["a.py"]).

Definition config_B : string * ServerConfig :=
  ("B", mkServerConfig "python" ["b.py"]).

Definition config_C : string * ServerConfig :=
  ("C", mkServerConfig "python" ["c.py"]).

Definition client_AB : MultiServerClient :=
  (connect_all two_servers (inr [config_A; config_B]) (init, [])).2.1.

(** A tool carrying a [serverName] of its own, as an entry relayed from
    another aggregator does, and next to it a key of another name. *)
Definition relayed_tool : Tool :=
  mkTool "t" None JNull
    (Some (<["serverName" := JStr "upstream"]> {["tag" := JNum 7]})).

Definition session_R : ClientSession.t := serving 3 [relayed_tool] [] [].

Definition relay : World := fun _ _ => inr session_R.

Definition client_relay : MultiServerClient :=
  (connect_all relay (inr [config_A]) (init, [])).2.1.

(** ** Loading the configuration *)

(** What [load_config] reads from outside the process: whether the path
    exists, what [json.load] makes of the file, and what
    [MCPServersConfig.model_validate] makes of the parsed data. *)
Record Loader : Type := mkLoader {
  path_exists : string -> bool;
  json_load : string -> Exn + Json;
  model_validate : Json -> Exn + MCPServersConfig
}.

(** [MultiServerClient.load_config]; [config_path] is
    [str(self.config_path)]. *)
Definition load_config (loader : Loader) (config_path : string)
  : Exn + MCPServersConfig :=
  if negb (path_exists loader config_path)
  then inl (FileNotFoundError
              ("Configuration file not found: " +:+ config_path))
  else match json_load loader config_path with
       | inl e => inl e
       | inr config_data => model_validate loader config_data
       end.

(** ** The log of a run, in closed form *)

Definition is_connect_failure (r : LogRecord) : bool :=
  match r with Warn_failed_to_connect _ _ => true | _ => false end.

(** The warnings [connect_all] owes to the providers that do not get
    through opening and handshake, in configuration order. *)
Definition failure_warnings (world : World) (config : MCPServersConfig)
  : list LogRecord :=
  flat_map (fun '(server_name, server_config) =>
              match handshake world server_name server_config with
              | inl e => [Warn_failed_to_connect server_name e]
              | inr _ => []
              end) config.

(** The snapshots of the providers that connect, in configuration
    order. *)
Definition connected_snapshots (world : World) (config : MCPServersConfig)
  : list (string * ServerCapabilities) :=
  flat_map (fun '(server_name, server_config) =>
              match handshake world server_name server_config with
              | inl _ => []
              | inr session => [(server_name, snapshot server_name session)]
              end) config.

(** ** Namespaced URIs ([mcp_multi_server/utils.py]) *)

(** [format_namespace_uri] *)
Definition format_namespace_uri (server_name uri : string) : string :=
  server_name +:+ ":" +:+ uri.

(** [parse_namespace_uri] *)
Definition parse_namespace_uri (namespaced_uri : string)
  : option string * string :=
  if contains_colon namespaced_uri then
    match split_colon_once namespaced_uri with
    | [part0; part1] => (Some part0, part1)
    | _ => (None, namespaced_uri)
    end
  else (None, namespaced_uri).

(** ** URI templates ([mcp_multi_server/utils.py], and the same two
    functions in [multi_server_client/chat_clientv2.py]) *)

(** [re.findall(r"\{([^}]+)\}", s)], as the scan the regular expression
    performs.  Outside a candidate ([inside = None]) an opening brace
    starts one.  Inside, with [acc] the characters consumed by
    [[^}]+], any character but a closing brace is consumed (an opening
    brace too); a closing brace ends the match and yields [acc], unless
    [acc] is empty, in which case nothing matches at that opening brace
    and the scan goes on after the closing brace.  When the input ends
    inside a candidate there is no closing brace left, so nothing more
    can match. *)
Fixpoint findall_braces (inside : option string) (s : string)
  : list string :=
  match s with
  | EmptyString => []
  | String c s' =>
      match inside with
      | None =>
          if Ascii.eqb c "{" then findall_braces (Some "") s'
          else findall_braces None s'
      | Some acc =>
          if Ascii.eqb c "}" then
            match acc with
            | EmptyString => findall_braces None s'
            | _ => acc :: findall_braces None s'
            end
          else findall_braces (Some (acc +:+ String c "")) s'
      end
  end.

(** [extract_template_variables] *)
Definition extract_template_variables (uri_template : string) : list string :=
  findall_braces None uri_template.

(** [c in s] for a character. *)
Fixpoint contains_char (c : ascii) (s : string) : bool :=
  match s with
  | EmptyString => false
  | String c' s' => if Ascii.eqb c' c then true else contains_char c s'
  end.

(** The bytes [urllib.parse.quote] never escapes: ASCII letters, digits
    and [_.-~]. *)
Definition always_safe (c : ascii) : bool :=
  let n := nat_of_ascii c in
  (Nat.leb 65 n && Nat.leb n 90) || (Nat.leb 97 n && Nat.leb n 122) ||
  (Nat.leb 48 n && Nat.leb n 57) || contains_char c "_.-~".

(** One digit of ["%02X"]. *)
Definition hex_digit (n : nat) : ascii :=
  match String.get n "0123456789ABCDEF" with
  | Some c => c
  | None => "0"%char
  end.

Definition quote_byte (c : ascii) : string :=
  if always_safe c then String c ""
  else String "%" (String (hex_digit (nat_of_ascii c / 16))
                     (String (hex_digit (nat_of_ascii c mod 16)) "")).

(** [quote(value, safe="")]; a string is the sequence of bytes of its
    UTF-8 encoding, which is what [quote] works on. *)
Fixpoint quote (value : string) : string :=
  match value with
  | EmptyString => ""
  | String c value' => quote_byte c +:+ quote value'
  end.

(** [s.replace(old, new)] for a non-empty [old] (here always
    ["{" + var + "}"]): the occurrences of [old] are replaced from left
    to right without overlap.  [skip] counts the characters of an
    occurrence still to pass over. *)
Fixpoint replace_from (old new : string) (skip : nat) (s : string) : string :=
  match s with
  | EmptyString => ""
  | String c s' =>
      match skip with
      | S skip' => replace_from old new skip' s'
      | O =>
          if String.prefix old s
          then new +:+ replace_from old new (String.length old - 1) s'
          else String c (replace_from old new 0 s')
      end
  end.

Definition str_replace (old new s : string) : string :=
  replace_from old new 0 s.

(** [substitute_template_variables]; [variables] in the order
    [items()] yields it. *)
Definition substitute_template_variables (uri_template : string)
  (variables : list (string * string)) : string :=
  foldl (fun result '(var, value) =>
           let encoded_value := quote value in
           str_replace ("{" +:+ var +:+ "}") encoded_value result)
    uri_template variables.

(** ** More concrete servers for the examples *)

(** A server configured under the empty name. *)
Definition config_unnamed : string * ServerConfig :=
  ("", mkServerConfig "python" ["u.py"]).

Definition session_U : ClientSession.t :=
  serving 4 [plain_tool "u"] [plain_resource "file:///u" "u"]
    [plain_prompt "up"].

Definition unnamed_server : World := fun _ _ => inr session_U.

Definition client_unnamed : MultiServerClient :=
  (connect_all unnamed_server (inr [config_unnamed]) (init, [])).2.1.

(** A session that answers the handshake but none of the four
    discovery queries. *)
Definition session_mute : ClientSession.t :=
  ClientSession.mk 5 (inr tt) (inl (McpError (-32601) "Method not found"))
    (inl (McpError (-32601) "Method not found"))
    (inl (McpError (-32601) "Method not found"))
    (inl (McpError (-32601) "Method not found")).

Definition mute_server : World := fun _ _ => inr session_mute.

Definition no_file : Loader :=
  {| path_exists := fun _ => false;
     json_load := fun _ => inl (OtherError "unreadable");
     model_validate := fun _ => inr [] |}.

(** ** What a run keeps *)

(** Every key of the four dictionaries of [before] is a key in [after],
    and the snapshots of [before] keep their place in the iteration
    order. *)
Definition keeps (before after : MultiServerClient) : Prop :=
  (forall k, is_Some (sessions before !! k) -> is_Some (sessions after !! k)) /\
  (forall k, is_Some (dict_get k (capabilities before)) ->
             is_Some (dict_get k (capabilities after))) /\
  (forall name, is_Some (tool_to_server before !! name) ->
                is_Some (tool_to_server after !! name)) /\
  (forall name, is_Some (prompt_to_server before !! name) ->
                is_Some (prompt_to_server after !! name)) /\
  (exists more,
     dict_keys (capabilities after) = dict_keys (capabilities before) ++ more).

(** ** OpenAI function format ([mcp_multi_server/utils.py]; the same
    comprehension is inlined in [chat] of [chat_clientv2.py]) *)

(** One entry of the list [mcp_tools_to_openai_format] builds; a
    missing description is JSON null. *)
Definition openai_function (tool : Tool) : Json :=
  JObj [("type", JStr "function");
        ("function",
         JObj [("name", JStr (tool_name tool));
               ("description",
                match tool_description tool with
                | Some description => JStr description
                | None => JNull
                end);
               ("parameters", tool_inputSchema tool)])].

(** [mcp_tools_to_openai_format] *)
Definition mcp_tools_to_openai_format (tools : list Tool) : list Json :=
  openai_function <$> tools.

(* ===================================================================== *)
(** * Properties *)
(* ===================================================================== *)

(** ** The insertion-ordered dictionary *)

Section DictFacts.
Context {V : Type}.
Implicit Types (d : list (string * V)) (k : string) (v : V).

Lemma dict_get_set_eq d k v : dict_get k (dict_set k v d) = Some v.
Proof.
  induction d as [|[k' v'] d IH]; simpl.
  - by rewrite decide_True.
  - destruct (decide (k = k')) as [->|Hne]; simpl.
    + by rewrite decide_True.
    + by rewrite decide_False.
Qed.

Lemma dict_get_set_ne d k k' v :
  k ≠ k' -> dict_get k' (dict_set k v d) = dict_get k' d.
Proof.
  intros Hne. induction d as [|[k0 v0] d IH]; simpl.
  - by rewrite decide_False.
  - destruct (decide (k = k0)) as [->|Hne0]; simpl.
    + by rewrite !decide_False.
    + destruct (decide (k' = k0)); [done | apply IH].
Qed.

Lemma dict_get_None d k : dict_get k d = None <-> k ∉ dict_keys d.
Proof.
  unfold dict_keys. induction d as [|[k' v'] d IH]; simpl.
  - split; [intros _; apply not_elem_of_nil | done].
  - rewrite not_elem_of_cons. destruct (decide (k = k')) as [->|Hne].
    + split; [done | intros [? _]; done].
    + rewrite IH. tauto.
Qed.

Lemma dict_get_is_Some d k : is_Some (dict_get k d) <-> k ∈ dict_keys d.
Proof.
  rewrite <- not_eq_None_Some, dict_get_None.
  destruct (decide (k ∈ dict_keys d)); tauto.
Qed.

Lemma dict_get_elem_of d k v : dict_get k d = Some v -> (k, v) ∈ d.
Proof.
  induction d as [|[k' v'] d IH]; simpl; [done|].
  destruct (decide (k = k')) as [->|Hne].
  - intros [= ->]. apply elem_of_cons. by left.
  - intros H. apply elem_of_cons. right. by apply IH.
Qed.

Lemma dict_get_NoDup d k v :
  NoDup (dict_keys d) -> (k, v) ∈ d -> dict_get k d = Some v.
Proof.
  unfold dict_keys. induction d as [|[k' v'] d IH]; simpl.
  - intros _ H. by apply elem_of_nil in H.
  - intros Hnd H. apply NoDup_cons in Hnd as [Hnotin Hnd].
    apply elem_of_cons in H as [[= -> ->]|H].
    + by rewrite decide_True.
    + destruct (decide (k = k')) as [->|Hne]; [|by apply IH].
      exfalso. apply Hnotin. apply list_elem_of_fmap. by exists (k', v).
Qed.

Lemma dict_set_fresh d k v :
  k ∉ dict_keys d -> dict_set k v d = d ++ [(k, v)].
Proof.
  unfold dict_keys. induction d as [|[k' v'] d IH]; simpl; [done|].
  rewrite not_elem_of_cons. intros [Hne Hnotin].
  rewrite decide_False by done. by rewrite IH.
Qed.

Lemma dict_keys_set d k v :
  forall k', k' ∈ dict_keys (dict_set k v d) <-> k' = k \/ k' ∈ dict_keys d.
Proof.
  intros k'. rewrite <- !dict_get_is_Some.
  destruct (decide (k = k')) as [->|Hne].
  - rewrite dict_get_set_eq. split; [by left | by eexists].
  - rewrite dict_get_set_ne by done. split; [by right|].
    intros [->|H]; done.
Qed.

End DictFacts.

(** ** What the connect sequence computes *)

Lemma run_map_tools server_name (ts : list Tool) self log :
  for_each ts (map_tool server_name) (self, log) =
  (inr tt,
   ({| sessions := sessions self;
       capabilities := capabilities self;
       tool_to_server :=
         bind_all server_name (tool_name <$> ts) (tool_to_server self);
       prompt_to_server := prompt_to_server self |},
    log ++ collisions KTool server_name (tool_name <$> ts)
             (tool_to_server self))).
Proof.
  revert self log. induction ts as [|t ts IH]; intros self log.
  - destruct self. simpl. by rewrite app_nil_r.
  - cbn [for_each]. unfold bind at 1.
    unfold map_tool, bind, get_self, set_self, logger, ret. cbn [fst snd].
    destruct (tool_to_server self !! tool_name t) as [existing|] eqn:Hex;
      rewrite IH; cbn; rewrite ?Hex; cbn;
      by rewrite ?app_nil_r, <- ?app_assoc.
Qed.

Lemma run_map_prompts server_name (ps : list Prompt) self log :
  for_each ps (map_prompt server_name) (self, log) =
  (inr tt,
   ({| sessions := sessions self;
       capabilities := capabilities self;
       tool_to_server := tool_to_server self;
       prompt_to_server :=
         bind_all server_name (prompt_name <$> ps) (prompt_to_server self) |},
    log ++ collisions KPrompt server_name (prompt_name <$> ps)
             (prompt_to_server self))).
Proof.
  revert self log. induction ps as [|p ps IH]; intros self log.
  - destruct self. simpl. by rewrite app_nil_r.
  - cbn [for_each]. unfold bind at 1.
    unfold map_prompt, bind, get_self, set_self, logger, ret. cbn [fst snd].
    destruct (prompt_to_server self !! prompt_name p) as [existing|] eqn:Hex;
      rewrite IH; cbn; rewrite ?Hex; cbn;
      by rewrite ?app_nil_r, <- ?app_assoc.
Qed.

(** One provider: the monadic code computes [after_connect] and writes
    [log_of_connect], and raises exactly when the handshake does. *)
Lemma run_connect_server world server_name server_config self log :
  _connect_server world server_name server_config (self, log) =
  (match handshake world server_name server_config with
   | inl e => inl e
   | inr _ => inr tt
   end,
   match handshake world server_name server_config with
   | inl _ => (self, log ++ [Info_connecting server_name])
   | inr _ => connect_step world (self, log) (server_name, server_config)
   end).
Proof.
  unfold connect_step, after_connect, log_of_connect, handshake.
  unfold _connect_server. cbn [fst snd].
  unfold bind at 1. unfold logger at 1. cbn [fst snd].
  unfold bind at 1. unfold await at 1.
  destruct (world server_name _) as [e|session]; [done|].
  unfold bind at 1. unfold await at 1.
  destruct (ClientSession.initialize session) as [e|[]]; [done|].
  unfold bind at 1. unfold set_self at 1. cbn [fst snd].
  unfold registered, snapshot, discovery_log, advertised_tools,
    advertised_prompts.
  unfold bind at 1, try_except at 1, bind at 1, await at 1.
  destruct (ClientSession.list_tools session) as [e1|r1].
  - unfold bind at 1, logger at 1, ret at 1. cbn [fst snd].
    unfold bind at 1, try_except at 1, bind at 1, await at 1.
    destruct (ClientSession.list_resources session) as [e2|r2];
      unfold bind at 1, logger at 1, ret at 1; cbn [fst snd];
      unfold bind at 1, try_except at 1, bind at 1, await at 1;
      destruct (ClientSession.list_resource_templates session) as [e3|r3];
      unfold bind at 1, logger at 1, ret at 1; cbn [fst snd];
      unfold bind at 1, try_except at 1, bind at 1, await at 1;
      destruct (ClientSession.list_prompts session) as [e4|r4];
      unfold bind at 1, logger at 1; cbn [fst snd];
      try (unfold bind at 1; rewrite run_map_prompts);
      cbn; unfold set_capabilities, set_self, ret; cbn;
      rewrite <- ?app_assoc; reflexivity.
  - unfold bind at 1, logger at 1. cbn [fst snd].
    unfold bind at 1. rewrite run_map_tools. unfold ret at 1.
    unfold bind at 1, try_except at 1, bind at 1, await at 1.
    destruct (ClientSession.list_resources session) as [e2|r2];
      unfold bind at 1, logger at 1, ret at 1; cbn [fst snd];
      unfold bind at 1, try_except at 1, bind at 1, await at 1;
      destruct (ClientSession.list_resource_templates session) as [e3|r3];
      unfold bind at 1, logger at 1, ret at 1; cbn [fst snd];
      unfold bind at 1, try_except at 1, bind at 1, await at 1;
      destruct (ClientSession.list_prompts session) as [e4|r4];
      unfold bind at 1, logger at 1; cbn [fst snd];
      try (unfold bind at 1; rewrite run_map_prompts);
      cbn; unfold set_capabilities, set_self, ret; cbn;
      rewrite <- ?app_assoc; reflexivity.
Qed.

Lemma run_connect_loop world (config : MCPServersConfig) w :
  for_each config
    (fun '(server_name, server_config) =>
       try_except (_connect_server world server_name server_config)
         (fun e => logger (Warn_failed_to_connect server_name e))) w =
  (inr tt, foldl (connect_step world) w config).
Proof.
  revert w. induction config as [|[server_name server_config] config IH];
    intros [self log]; [done|].
  cbn [for_each foldl]. unfold bind at 1, try_except at 1.
  rewrite run_connect_server.
  destruct (handshake world server_name server_config) as [e|session] eqn:Hh.
  - unfold logger. cbn [fst snd]. rewrite IH. do 2 f_equal.
    unfold connect_step, after_connect, log_of_connect. cbn [fst snd].
    rewrite Hh. by rewrite <- app_assoc.
  - by rewrite IH.
Qed.

Lemma run_connect_all world (config : MCPServersConfig) self log :
  connect_all world (inr config) (self, log) =
  let w :=
    foldl (connect_step world)
      (self, log ++ [Info_connecting_to (length config)]) config in
  (inr tt, (w.1, w.2 ++ [Info_connected (size (sessions w.1))])).
Proof.
  unfold connect_all, bind at 1, await at 1.
  unfold bind at 1, logger at 1. cbn [fst snd].
  unfold bind at 1. rewrite run_connect_loop.
  by destruct (foldl _ _ _).
Qed.

(** A configuration that does not load makes [connect_all] raise at once,
    with nothing assigned and nothing logged. *)
Lemma run_connect_all_not_loaded world e w :
  connect_all world (inl e) w = (inl e, w).
Proof. by destruct w. Qed.

Lemma connect_loop_client world (config : MCPServersConfig) w :
  (foldl (connect_step world) w config).1 =
  foldl (after_connect world) w.1 config.
Proof.
  revert w. induction config as [|entry config IH]; intros w; [done|].
  cbn [foldl]. by rewrite IH.
Qed.

Lemma connect_all_client world (config : MCPServersConfig) self log :
  (connect_all world (inr config) (self, log)).2.1 =
  foldl (after_connect world) self config.
Proof.
  rewrite run_connect_all. cbn [fst snd]. by rewrite connect_loop_client.
Qed.

Lemma connect_all_returns world (config : MCPServersConfig) w :
  (connect_all world (inr config) w).1 = inr tt.
Proof. destruct w. by rewrite run_connect_all. Qed.

(** The log only grows. *)
Lemma connect_loop_log world (config : MCPServersConfig) w :
  exists more, (foldl (connect_step world) w config).2 = w.2 ++ more.
Proof.
  revert w. induction config as [|entry config IH]; intros w.
  - exists []. by rewrite app_nil_r.
  - cbn [foldl]. destruct (IH (connect_step world w entry)) as [more ->].
    unfold connect_step. cbn [snd]. eexists. by rewrite <- app_assoc.
Qed.

(** ** The client after the connect loop *)

Lemma lookup_bind_all server_name names (table : gmap string string) name :
  bind_all server_name names table !! name =
  if bool_decide (name ∈ names) then Some server_name else table !! name.
Proof.
  unfold bind_all. revert table.
  induction names as [|n names IH]; intros table; cbn [foldl].
  - by rewrite bool_decide_eq_false_2 by apply not_elem_of_nil.
  - rewrite IH. destruct (decide (name ∈ names)) as [Hin|Hnotin].
    + rewrite !bool_decide_eq_true_2; [done | by right | done].
    + rewrite (bool_decide_eq_false_2 (name ∈ names)) by done.
      destruct (decide (name = n)) as [->|Hne].
      * rewrite lookup_insert_eq. by rewrite bool_decide_eq_true_2 by left.
      * rewrite lookup_insert_ne by done.
        rewrite bool_decide_eq_false_2; [done|].
        rewrite not_elem_of_cons. done.
Qed.

Lemma tool_to_server_after_connect world self entry name :
  tool_to_server (after_connect world self entry) !! name =
  if advertises advertised_tools world entry name then Some entry.1
  else tool_to_server self !! name.
Proof.
  unfold after_connect, advertises.
  destruct (handshake world entry.1 entry.2) as [e|session]; [done|].
  cbn. apply lookup_bind_all.
Qed.

Lemma prompt_to_server_after_connect world self entry name :
  prompt_to_server (after_connect world self entry) !! name =
  if advertises advertised_prompts world entry name then Some entry.1
  else prompt_to_server self !! name.
Proof.
  unfold after_connect, advertises.
  destruct (handshake world entry.1 entry.2) as [e|session]; [done|].
  cbn. apply lookup_bind_all.
Qed.

(** After the loop a name is bound to the last provider that advertised
    it, and keeps its earlier binding when none did. *)
Lemma tool_to_server_after world (config : MCPServersConfig) self name :
  tool_to_server (foldl (after_connect world) self config) !! name =
  match last_owner advertised_tools world config name with
  | Some owner => Some owner
  | None => tool_to_server self !! name
  end.
Proof.
  revert self. induction config as [|entry config IH]; intros self; [done|].
  cbn [foldl last_owner]. rewrite IH.
  destruct (last_owner advertised_tools world config name); [done|].
  rewrite tool_to_server_after_connect.
  by destruct (advertises advertised_tools world entry name).
Qed.

Lemma prompt_to_server_after world (config : MCPServersConfig) self name :
  prompt_to_server (foldl (after_connect world) self config) !! name =
  match last_owner advertised_prompts world config name with
  | Some owner => Some owner
  | None => prompt_to_server self !! name
  end.
Proof.
  revert self. induction config as [|entry config IH]; intros self; [done|].
  cbn [foldl last_owner]. rewrite IH.
  destruct (last_owner advertised_prompts world config name); [done|].
  rewrite prompt_to_server_after_connect.
  by destruct (advertises advertised_prompts world entry name).
Qed.

Lemma last_owner_Some advertised world (config : MCPServersConfig) name owner :
  last_owner advertised world config name = Some owner ->
  exists server_config session,
    (owner, server_config) ∈ config /\
    handshake world owner server_config = inr session /\
    name ∈ advertised session.
Proof.
  induction config as [|[k sc] config IH]; cbn [last_owner]; [done|].
  destruct (last_owner advertised world config name) as [o|].
  - intros [= ->]. destruct IH as (sc' & s & Hin & Hh & Hadv); [done|].
    exists sc', s. split; [by right | done].
  - unfold advertises. cbn [fst snd].
    destruct (handshake world k sc) as [e|s] eqn:Hh; [done|].
    case_bool_decide; [|done]. intros [= <-].
    exists sc, s. split; [by left | done].
Qed.

Lemma last_owner_app advertised world (c1 c2 : MCPServersConfig) name :
  last_owner advertised world (c1 ++ c2) name =
  match last_owner advertised world c2 name with
  | Some owner => Some owner
  | None => last_owner advertised world c1 name
  end.
Proof.
  induction c1 as [|entry c1 IH]; cbn [app last_owner].
  - by destruct (last_owner advertised world c2 name).
  - rewrite IH. by destruct (last_owner advertised world c2 name).
Qed.

Lemma last_owner_None advertised world (config : MCPServersConfig) name :
  (forall entry, entry ∈ config -> advertises advertised world entry name = false) ->
  last_owner advertised world config name = None.
Proof.
  induction config as [|entry config IH]; intros H; [done|].
  cbn [last_owner]. rewrite IH.
  - rewrite H; [done | by left].
  - intros e He. apply H. by right.
Qed.

Lemma sessions_after world (config : MCPServersConfig) self k :
  NoDup config.*1 ->
  sessions (foldl (after_connect world) self config) !! k =
  match dict_get k config with
  | Some server_config =>
      match handshake world k server_config with
      | inr session => Some session
      | inl _ => sessions self !! k
      end
  | None => sessions self !! k
  end.
Proof.
  revert self. induction config as [|[k0 sc0] config IH]; intros self Hnd;
    [done|].
  cbn [fmap list_fmap fst] in Hnd. apply NoDup_cons in Hnd as [Hfresh Hnd].
  cbn [foldl dict_get]. rewrite IH by done.
  destruct (decide (k = k0)) as [->|Hne].
  - assert (dict_get k0 config = None) as -> by by apply dict_get_None.
    unfold after_connect. cbn [fst snd].
    destruct (handshake world k0 sc0) as [e|s]; [done|].
    cbn. by rewrite lookup_insert_eq.
  - assert (sessions (after_connect world self (k0, sc0)) !! k
            = sessions self !! k) as ->; [|done].
    unfold after_connect. cbn [fst snd].
    destruct (handshake world k0 sc0) as [e|s]; [done|].
    cbn. by rewrite lookup_insert_ne.
Qed.

Lemma capabilities_after world (config : MCPServersConfig) self k :
  NoDup config.*1 ->
  dict_get k (capabilities (foldl (after_connect world) self config)) =
  match dict_get k config with
  | Some server_config =>
      match handshake world k server_config with
      | inr session => Some (snapshot k session)
      | inl _ => dict_get k (capabilities self)
      end
  | None => dict_get k (capabilities self)
  end.
Proof.
  revert self. induction config as [|[k0 sc0] config IH]; intros self Hnd;
    [done|].
  cbn [fmap list_fmap fst] in Hnd. apply NoDup_cons in Hnd as [Hfresh Hnd].
  cbn [foldl dict_get]. rewrite IH by done.
  destruct (decide (k = k0)) as [->|Hne].
  - assert (dict_get k0 config = None) as -> by by apply dict_get_None.
    unfold after_connect. cbn [fst snd].
    destruct (handshake world k0 sc0) as [e|s]; [done|].
    cbn. by rewrite dict_get_set_eq.
  - assert (dict_get k (capabilities (after_connect world self (k0, sc0)))
            = dict_get k (capabilities self)) as ->; [|done].
    unfold after_connect. cbn [fst snd].
    destruct (handshake world k0 sc0) as [e|s]; [done|].
    cbn. by rewrite dict_get_set_ne.
Qed.

(** ** Consistency is an invariant of the connect sequence *)

Lemma consistent_init : consistent init.
Proof.
  repeat split; cbn; try (intros ? ? H; by rewrite lookup_empty in H).
  - rewrite lookup_empty. by intros [? ?].
  - by intros [? ?].
Qed.

Lemma is_Some_lookup_insert_mono {V} (m : gmap string V) k v k' :
  is_Some (m !! k') -> is_Some (<[k := v]> m !! k').
Proof.
  intros H. destruct (decide (k = k')) as [->|Hne].
  - rewrite lookup_insert_eq. by eexists.
  - by rewrite lookup_insert_ne.
Qed.

Lemma consistent_registered server_name session self :
  consistent self -> consistent (registered server_name session self).
Proof.
  intros (Hkeys & Htools & Hprompts). repeat split; cbn.
  - destruct (decide (server_name = k)) as [->|Hne].
    + rewrite dict_get_set_eq. by eexists.
    + rewrite lookup_insert_ne, dict_get_set_ne by done. apply Hkeys.
  - destruct (decide (server_name = k)) as [->|Hne].
    + rewrite lookup_insert_eq. by eexists.
    + rewrite lookup_insert_ne, dict_get_set_ne by done. apply Hkeys.
  - intros name k. rewrite lookup_bind_all. case_bool_decide.
    + intros [= <-]. rewrite lookup_insert_eq. by eexists.
    + intros Hb. apply is_Some_lookup_insert_mono. by eapply Htools.
  - intros name k. rewrite lookup_bind_all. case_bool_decide.
    + intros [= <-]. rewrite lookup_insert_eq. by eexists.
    + intros Hb. apply is_Some_lookup_insert_mono. by eapply Hprompts.
Qed.

Lemma consistent_after_connect world self entry :
  consistent self -> consistent (after_connect world self entry).
Proof.
  intros H. unfold after_connect.
  destruct (handshake world entry.1 entry.2); [done|].
  by apply consistent_registered.
Qed.

Lemma consistent_loop world (config : MCPServersConfig) self :
  consistent self -> consistent (foldl (after_connect world) self config).
Proof.
  revert self. induction config as [|entry config IH]; intros self H; [done|].
  cbn [foldl]. apply IH. by apply consistent_after_connect.
Qed.

Lemma reachable_consistent self : reachable self -> consistent self.
Proof.
  induction 1 as [|world [e|config] self log _ IH].
  - apply consistent_init.
  - by rewrite run_connect_all_not_loaded.
  - rewrite connect_all_client. by apply consistent_loop.
Qed.

Lemma client_AB_reachable : reachable client_AB.
Proof.
  exact (reachable_connect_all two_servers (inr [config_A; config_B]) init []
           reachable_init).
Defined.

(** ** Splitting a namespaced URI *)

Lemma append_nil (s : string) : "" +:+ s = s.
Proof. reflexivity. Qed.

Lemma append_cons c (p s : string) : String c p +:+ s = String c (p +:+ s).
Proof. reflexivity. Qed.

Lemma contains_colon_app p u : contains_colon (p +:+ ":" +:+ u) = true.
Proof.
  induction p as [|c p IH]; [done|].
  rewrite append_cons. cbn. by destruct (Ascii.eqb c ":").
Qed.

Lemma split_colon_once_app p u :
  contains_colon p = false ->
  split_colon_once (p +:+ ":" +:+ u) = [p; u].
Proof.
  induction p as [|c p IH]; [done|].
  rewrite append_cons. cbn.
  destruct (Ascii.eqb c ":"); [done|].
  intros Hp. by rewrite IH.
Qed.

Lemma split_colon_once_no_colon s :
  contains_colon s = false -> split_colon_once s = [s].
Proof.
  induction s as [|c s IH]; cbn; [done|].
  destruct (Ascii.eqb c ":"); [done|].
  intros Hp. by rewrite IH.
Qed.

(** A string with a colon is a colon-free left segment, the colon, and a
    remainder. *)
Lemma contains_colon_split s :
  contains_colon s = true ->
  exists p u, s = p +:+ ":" +:+ u /\ contains_colon p = false.
Proof.
  induction s as [|c s IH]; cbn; [done|].
  destruct (Ascii.eqb c ":") eqn:Hc.
  - apply Ascii.eqb_eq in Hc as ->. intros _. by exists "", s.
  - intros Hs. destruct (IH Hs) as (p & u & -> & Hp).
    exists (String c p), u. cbn. by rewrite Hc.
Qed.

(** ** Cursor rejection *)

(** C9.  Every listing raises [ValueError] on any cursor that is not
    [None], the empty string included, and leaves the client and the log
    as they were; with the cursor absent every listing returns a value,
    again without touching client or log. *)
Theorem cursor_rejected (c : string) (use_namespace : bool) (w : Mem) :
  list_tools (Some c) w =
    (inl (ValueError "Pagination not supported for multi-server aggregation"),
     w) /\
  list_prompts (Some c) w =
    (inl (ValueError "Pagination not supported for multi-server aggregation"),
     w) /\
  list_resources (Some c) use_namespace w =
    (inl (ValueError "Pagination not supported for multi-server aggregation"),
     w) /\
  list_resource_templates (Some c) use_namespace w =
    (inl (ValueError "Pagination not supported for multi-server aggregation"),
     w) /\
  (exists r, list_tools None w = (inr r, w)) /\
  (exists r, list_prompts None w = (inr r, w)) /\
  (exists r, list_resources None use_namespace w = (inr r, w)) /\
  (exists r, list_resource_templates None use_namespace w = (inr r, w)).
Proof.
  repeat split; try reflexivity; eexists; reflexivity.
Qed.

(** ** Resolution of a resource read *)



(** ** The two routed calls that consult the snapshot *)

Lemma call_tool_outcome self name arguments read_timeout_seconds
  progress_callback server_name :
  consistent self ->
  (exists result,
     call_tool self name arguments read_timeout_seconds progress_callback
       server_name = Returned result /\ isError result = true) \/
  (exists k session,
     sessions self !! k = Some session /\
     call_tool self name arguments read_timeout_seconds progress_callback
       server_name =
     Forwarded session
       (Call_tool name arguments read_timeout_seconds progress_callback)).
Proof.
  intros (Hkeys & Htools & _).
  destruct server_name as [server_name|]; unfold call_tool.
  - destruct (decide (is_Some (sessions self !! server_name)))
      as [[session Hs]|Hno]; [|left; by eexists].
    destruct (proj1 (Hkeys server_name)) as [snap ->]; [by eexists|].
    destruct (caps_tools snap) as [result|]; [|left; by eexists].
    destruct (decide (name ∈ tool_name <$> tools result));
      [|left; by eexists].
    right. exists server_name, session. by rewrite Hs.
  - destruct (tool_to_server self !! name) as [k|] eqn:Hk;
      [|left; by eexists].
    destruct (truthy k); [|left; by eexists].
    destruct (Htools name k Hk) as [session Hs].
    right. exists k, session. by rewrite Hs.
Qed.

Lemma get_prompt_outcome self name arguments server_name :
  consistent self ->
  (exists message,
     get_prompt self name arguments server_name =
     Raised (McpError (-32601) message)) \/
  (exists k session,
     sessions self !! k = Some session /\
     get_prompt self name arguments server_name =
     Forwarded session (Get_prompt name (default ∅ arguments))).
Proof.
  intros (Hkeys & _ & Hprompts).
  destruct server_name as [server_name|]; unfold get_prompt.
  - destruct (decide (is_Some (sessions self !! server_name)))
      as [[session Hs]|Hno]; [|left; by eexists].
    destruct (proj1 (Hkeys server_name)) as [snap ->]; [by eexists|].
    destruct (caps_prompts snap) as [result|]; [|left; by eexists].
    destruct (decide (name ∈ prompt_name <$> prompts result));
      [|left; by eexists].
    right. exists server_name, session. by rewrite Hs.
  - destruct (prompt_to_server self !! name) as [k|] eqn:Hk;
      [|left; by eexists].
    destruct (truthy k); [|left; by eexists].
    destruct (Hprompts name k Hk) as [session Hs].
    right. exists k, session. by rewrite Hs.
Qed.

(** ** Routing failures of a tool call *)

(** C3.  On every client a program can hold, a tool call never ends
    with an exception of the client's own: it returns an error-flagged
    result for an unknown tool, an unknown server, a server without
    tools and a tool the server does not list, and otherwise hands the
    call, unchanged, to a registered session, whose answer or exception
    is then the caller's. *)
Theorem call_tool_routing_failures_are_results
  (self : MultiServerClient) (name : string) (arguments : gmap string Json)
  (read_timeout_seconds : option Z) (progress_callback : option nat) :
  reachable self ->
  (tool_to_server self !! name = None ->
   call_tool self name arguments read_timeout_seconds progress_callback None =
   Returned {| content := [ {| content_type := "text";
                               text := "Unknown tool: " +:+ name |} ];
               isError := true |}) /\
  (forall server_name,
     sessions self !! server_name = None ->
     call_tool self name arguments read_timeout_seconds progress_callback
       (Some server_name) =
     Returned {| content := [ {| content_type := "text";
                                 text := "Unknown server: " +:+ server_name |} ];
                 isError := true |}) /\
  (forall server_name snap,
     dict_get server_name (capabilities self) = Some snap ->
     caps_tools snap = None ->
     call_tool self name arguments read_timeout_seconds progress_callback
       (Some server_name) =
     Returned {| content :=
                   [ {| content_type := "text";
                        text := "Server '" +:+ server_name +:+
                                "' has no tools" |} ];
                 isError := true |}) /\
  (forall server_name snap result,
     dict_get server_name (capabilities self) = Some snap ->
     caps_tools snap = Some result ->
     name ∉ tool_name <$> tools result ->
     call_tool self name arguments read_timeout_seconds progress_callback
       (Some server_name) =
     Returned {| content :=
                   [ {| content_type := "text";
                        text := "Tool '" +:+ name +:+
                                "' not found in server '" +:+ server_name +:+
                                "'" |} ];
                 isError := true |}) /\
  (forall server_name,
     (exists result,
        call_tool self name arguments read_timeout_seconds progress_callback
          server_name = Returned result /\ isError result = true) \/
     (exists k session,
        sessions self !! k = Some session /\
        call_tool self name arguments read_timeout_seconds progress_callback
          server_name =
        Forwarded session
          (Call_tool name arguments read_timeout_seconds progress_callback))).
Proof.
  intros Hreach. destruct (reachable_consistent self Hreach)
    as (Hkeys & Htools & _).
  refine (conj _ (conj _ (conj _ (conj _ _)))).
  - intros Hnone. unfold call_tool. by rewrite Hnone.
  - intros server_name Hnone. unfold call_tool.
    rewrite decide_False; [done|]. rewrite Hnone. by intros [? ?].
  - intros server_name snap Hsnap Hnone. unfold call_tool.
    rewrite decide_True by (apply Hkeys; by rewrite Hsnap).
    by rewrite Hsnap, Hnone.
  - intros server_name snap result Hsnap Hres Hnotin. unfold call_tool.
    rewrite decide_True by (apply Hkeys; by rewrite Hsnap).
    rewrite Hsnap, Hres. by rewrite decide_False.
  - intros server_name. apply call_tool_outcome.
    by apply reachable_consistent.
Qed.

Lemma call_tool_routing_failures_are_results_witness :
  reachable client_AB /\
  tool_to_server client_AB !! "z" = None /\
  call_tool client_AB "z" ∅ None None None =
  Returned {| content := [ {| content_type := "text";
                              text := "Unknown tool: z" |} ];
              isError := true |}.
Proof.
  split; [exact client_AB_reachable|].
  split; [vm_compute; reflexivity|].
  apply (proj1 (call_tool_routing_failures_are_results client_AB "z" ∅ None
                  None client_AB_reachable)).
  vm_compute; reflexivity.
Defined.

(** ** Routing failures of a prompt fetch *)

(** C4.  On every client a program can hold, a prompt fetch signals a
    routing failure by raising an [McpError] with code -32601 (unknown
    prompt, unknown server, server without prompts, prompt not found in
    server) and never by a value; when the target resolves, the fetch is
    handed to that server's session and its outcome is the caller's. *)
Theorem get_prompt_routing_failures_are_raised
  (self : MultiServerClient) (name : string)
  (arguments : option (gmap string string)) :
  reachable self ->
  (prompt_to_server self !! name = None ->
   get_prompt self name arguments None =
   Raised (McpError (-32601) ("Unknown prompt: " +:+ name))) /\
  (forall server_name,
     sessions self !! server_name = None ->
     get_prompt self name arguments (Some server_name) =
     Raised (McpError (-32601) ("Unknown server: " +:+ server_name))) /\
  (forall server_name snap,
     dict_get server_name (capabilities self) = Some snap ->
     caps_prompts snap = None ->
     get_prompt self name arguments (Some server_name) =
     Raised (McpError (-32601)
               ("Server '" +:+ server_name +:+ "' has no prompts"))) /\
  (forall server_name snap result,
     dict_get server_name (capabilities self) = Some snap ->
     caps_prompts snap = Some result ->
     name ∉ prompt_name <$> prompts result ->
     get_prompt self name arguments (Some server_name) =
     Raised (McpError (-32601)
               ("Prompt '" +:+ name +:+ "' not found in server '" +:+
                server_name +:+ "'"))) /\
  (forall server_name snap result session,
     sessions self !! server_name = Some session ->
     dict_get server_name (capabilities self) = Some snap ->
     caps_prompts snap = Some result ->
     name ∈ prompt_name <$> prompts result ->
     get_prompt self name arguments (Some server_name) =
     Forwarded session (Get_prompt name (default ∅ arguments))) /\
  (forall k session,
     prompt_to_server self !! name = Some k ->
     truthy k = true ->
     sessions self !! k = Some session ->
     get_prompt self name arguments None =
     Forwarded session (Get_prompt name (default ∅ arguments))) /\
  (forall server_name,
     (exists message,
        get_prompt self name arguments server_name =
        Raised (McpError (-32601) message)) \/
     (exists k session,
        sessions self !! k = Some session /\
        get_prompt self name arguments server_name =
        Forwarded session (Get_prompt name (default ∅ arguments)))).
Proof.
  intros Hreach. destruct (reachable_consistent self Hreach)
    as (Hkeys & _ & Hprompts).
  refine (conj _ (conj _ (conj _ (conj _ (conj _ (conj _ _)))))).
  - intros Hnone. unfold get_prompt. by rewrite Hnone.
  - intros server_name Hnone. unfold get_prompt.
    rewrite decide_False; [done|]. rewrite Hnone. by intros [? ?].
  - intros server_name snap Hsnap Hnone. unfold get_prompt.
    rewrite decide_True by (apply Hkeys; by rewrite Hsnap).
    by rewrite Hsnap, Hnone.
  - intros server_name snap result Hsnap Hres Hnotin. unfold get_prompt.
    rewrite decide_True by (apply Hkeys; by rewrite Hsnap).
    rewrite Hsnap, Hres. by rewrite decide_False.
  - intros server_name snap result session Hs Hsnap Hres Hin.
    unfold get_prompt. rewrite decide_True by (by rewrite Hs).
    rewrite Hsnap, Hres, decide_True by done. by rewrite Hs.
  - intros k session Hk Htruthy Hs. unfold get_prompt.
    by rewrite Hk, Htruthy, Hs.
  - intros server_name. apply get_prompt_outcome.
    by apply reachable_consistent.
Qed.

Lemma get_prompt_routing_failures_are_raised_witness :
  reachable client_AB /\
  prompt_to_server client_AB !! "q" = None /\
  get_prompt client_AB "q" None None =
  Raised (McpError (-32601) "Unknown prompt: q").
Proof.
  split; [exact client_AB_reachable|].
  split; [vm_compute; reflexivity|].
  apply (proj1 (get_prompt_routing_failures_are_raised client_AB "q" None
                  client_AB_reachable)).
  vm_compute; reflexivity.
Defined.

(** ** One run on a fresh client *)

Lemma advertised_tools_elem session name :
  name ∈ advertised_tools session ->
  exists result,
    ClientSession.list_tools session = inr result /\
    name ∈ tool_name <$> tools result.
Proof.
  unfold advertised_tools.
  destruct (ClientSession.list_tools session) as [e|result].
  - intros H. by apply elem_of_nil in H.
  - intros H. by exists result.
Qed.

Lemma advertised_prompts_elem session name :
  name ∈ advertised_prompts session ->
  exists result,
    ClientSession.list_prompts session = inr result /\
    name ∈ prompt_name <$> prompts result.
Proof.
  unfold advertised_prompts.
  destruct (ClientSession.list_prompts session) as [e|result].
  - intros H. by apply elem_of_nil in H.
  - intros H. by exists result.
Qed.

Lemma registered_provider world (config : MCPServersConfig) self k
  server_config session :
  NoDup config.*1 ->
  (k, server_config) ∈ config ->
  handshake world k server_config = inr session ->
  sessions (foldl (after_connect world) self config) !! k = Some session /\
  dict_get k (capabilities (foldl (after_connect world) self config)) =
  Some (snapshot k session).
Proof.
  intros Hnd Hin Hh.
  rewrite sessions_after, capabilities_after by done.
  rewrite (dict_get_NoDup config k server_config) by done.
  by rewrite Hh.
Qed.

Lemma unregistered_provider world (config : MCPServersConfig) self k :
  NoDup config.*1 ->
  (forall server_config,
     (k, server_config) ∈ config -> connected world (k, server_config) = false) ->
  sessions (foldl (after_connect world) self config) !! k =
  sessions self !! k /\
  dict_get k (capabilities (foldl (after_connect world) self config)) =
  dict_get k (capabilities self).
Proof.
  intros Hnd Hfail.
  rewrite sessions_after, capabilities_after by done.
  destruct (dict_get k config) as [server_config|] eqn:Hget; [|done].
  apply dict_get_elem_of, Hfail in Hget. unfold connected in Hget.
  cbn [fst snd] in Hget.
  by destruct (handshake world k server_config).
Qed.

(** C10.  After one [connect_all] on a fresh client, whether or not the
    configuration loaded: [sessions] and [capabilities] have the same
    keys; every server a routing table names has a session and a
    snapshot whose tools (prompts) contain the bound name; hence
    [call_tool] and [get_prompt] never end with a [KeyError] from
    [self.capabilities[server_name]] or [self.sessions[server_name]]. *)
Theorem single_run_invariant (world : World)
  (loaded : Exn + MCPServersConfig) (log : list LogRecord) :
  (forall config, loaded = inr config -> NoDup config.*1) ->
  let self := (connect_all world loaded (init, log)).2.1 in
  (forall k, is_Some (sessions self !! k) <->
             is_Some (dict_get k (capabilities self))) /\
  (forall name k,
     tool_to_server self !! name = Some k ->
     exists session snap result,
       sessions self !! k = Some session /\
       dict_get k (capabilities self) = Some snap /\
       caps_tools snap = Some result /\
       name ∈ tool_name <$> tools result) /\
  (forall name k,
     prompt_to_server self !! name = Some k ->
     exists session snap result,
       sessions self !! k = Some session /\
       dict_get k (capabilities self) = Some snap /\
       caps_prompts snap = Some result /\
       name ∈ prompt_name <$> prompts result) /\
  (forall name arguments read_timeout_seconds progress_callback server_name
          key,
     call_tool self name arguments read_timeout_seconds progress_callback
       server_name <> Raised (KeyError key)) /\
  (forall name arguments server_name key,
     get_prompt self name arguments server_name <> Raised (KeyError key)).
Proof.
  intros Hnd self.
  assert (consistent self) as Hcons.
  { apply reachable_consistent.
    exact (reachable_connect_all world loaded init log reachable_init). }
  refine (conj _ (conj _ (conj _ (conj _ _)))).
  - apply Hcons.
  - intros name k. subst self.
    destruct loaded as [e|config];
      [rewrite run_connect_all_not_loaded; cbn;
       by rewrite lookup_empty|].
    specialize (Hnd config eq_refl).
    rewrite connect_all_client, tool_to_server_after.
    destruct (last_owner advertised_tools world config name) as [o|] eqn:Ho;
      [|cbn; by rewrite lookup_empty].
    intros [= ->].
    apply last_owner_Some in Ho as (sc & session & Hin & Hh & Hadv).
    apply advertised_tools_elem in Hadv as (result & Hres & Hname).
    destruct (registered_provider world config init k sc session)
      as [Hs Hc]; [done..|].
    exists session, (snapshot k session), result.
    repeat split; [done | done | | done]. cbn. by rewrite Hres.
  - intros name k. subst self.
    destruct loaded as [e|config];
      [rewrite run_connect_all_not_loaded; cbn;
       by rewrite lookup_empty|].
    specialize (Hnd config eq_refl).
    rewrite connect_all_client, prompt_to_server_after.
    destruct (last_owner advertised_prompts world config name) as [o|] eqn:Ho;
      [|cbn; by rewrite lookup_empty].
    intros [= ->].
    apply last_owner_Some in Ho as (sc & session & Hin & Hh & Hadv).
    apply advertised_prompts_elem in Hadv as (result & Hres & Hname).
    destruct (registered_provider world config init k sc session)
      as [Hs Hc]; [done..|].
    exists session, (snapshot k session), result.
    repeat split; [done | done | | done]. cbn. by rewrite Hres.
  - intros name arguments rts pc server_name key.
    destruct (call_tool_outcome self name arguments rts pc server_name Hcons)
      as [(result & -> & _)|(k & session & _ & ->)]; discriminate.
  - intros name arguments server_name key.
    destruct (get_prompt_outcome self name arguments server_name Hcons)
      as [(message & ->)|(k & session & _ & ->)]; discriminate.
Qed.

Lemma single_run_invariant_witness :
  NoDup [config_A; config_B].*1 /\
  (forall k, is_Some (sessions client_AB !! k) <->
             is_Some (dict_get k (capabilities client_AB))).
Proof.
  assert (NoDup [config_A; config_B].*1) as Hnd.
  { apply (bool_decide_unpack (NoDup _)). vm_compute. exact I. }
  split; [exact Hnd|].
  apply (single_run_invariant two_servers (inr [config_A; config_B]) []).
  intros config [= <-]. exact Hnd.
Defined.

Lemma config_AB_NoDup : NoDup [config_A; config_B].*1.
Proof. apply (bool_decide_unpack (NoDup _)). vm_compute. exact I. Defined.

(** ** Graceful degradation of discovery *)

(** On a configuration whose names are new to the client, the snapshots
    are appended in configuration order, one per provider that
    connected. *)
Lemma capabilities_keys_after world (config : MCPServersConfig) self :
  NoDup config.*1 ->
  (forall k, k ∈ config.*1 -> k ∉ dict_keys (capabilities self)) ->
  dict_keys (capabilities (foldl (after_connect world) self config)) =
  dict_keys (capabilities self) ++
  (filter (fun entry => connected world entry) config).*1.
Proof.
  revert self. induction config as [|[k sc] config IH]; intros self Hnd Hnew.
  - cbn. by rewrite app_nil_r.
  - cbn [fmap list_fmap fst] in Hnd. apply NoDup_cons in Hnd as [Hk Hnd].
    cbn [foldl].
    assert (k ∉ dict_keys (capabilities self)) as Hfresh
      by (apply Hnew; left).
    unfold after_connect at 2. cbn [fst snd].
    destruct (handshake world k sc) as [e|session] eqn:Hh.
    + rewrite IH; [|done|].
      * rewrite filter_cons_False; [done|].
        unfold connected. cbn [fst snd]. rewrite Hh. exact id.
      * intros k' Hk'. apply Hnew. by right.
    + rewrite IH; [|done|].
      * cbn [registered capabilities]. rewrite dict_set_fresh by done.
        rewrite filter_cons_True
          by (unfold connected; cbn [fst snd]; rewrite Hh; exact I).
        unfold dict_keys. rewrite fmap_app. cbn. by rewrite <- app_assoc.
      * intros k' Hk'. cbn [registered capabilities].
        rewrite dict_keys_set. intros [->|Hin]; [done|].
        revert Hin. apply Hnew. by right.
Qed.

Lemma NoDup_connected_keys world (config : MCPServersConfig) :
  NoDup config.*1 ->
  NoDup (filter (fun entry => connected world entry) config).*1.
Proof.
  intros Hnd. eapply sublist_NoDup; [exact Hnd|].
  apply fmap_sublist, sublist_filter.
Qed.

Lemma length_filter_complement {A} (P : A -> Prop)
  `{forall x, Decision (P x)} (l : list A) :
  length (filter P l) + length (filter (fun x => ~ P x) l) = length l.
Proof.
  rewrite <- length_app. apply Permutation_length, filter_app_complement.
Qed.

Lemma consistent_size self :
  consistent self ->
  NoDup (dict_keys (capabilities self)) ->
  size (sessions self) = length (capabilities self).
Proof.
  intros (Hkeys & _) Hnd.
  rewrite <- size_dom.
  assert (dom (sessions self)
          = list_to_set (C := gset string) (dict_keys (capabilities self)))
    as ->.
  { apply set_eq. intros k.
    rewrite elem_of_dom, elem_of_list_to_set, <- dict_get_is_Some.
    apply Hkeys. }
  rewrite size_list_to_set by done. unfold dict_keys. apply length_fmap.
Qed.

(** C1.  On a loaded configuration (names unique, as in any dictionary)
    run on a fresh client, [connect_all] returns normally whichever
    providers fail; a provider that fails to open or to initialize has
    no session, no snapshot and no binding in either routing table; a
    provider that connects has its session and a snapshot in which each
    kind is exactly the answer to that kind's own query, absent only if
    that query raised; nothing else is registered, so of N providers
    with M failing, N - M sessions and N - M snapshots are held. *)
Theorem graceful_discovery (world : World) (config : MCPServersConfig)
  (log : list LogRecord) :
  NoDup config.*1 ->
  let outcome := connect_all world (inr config) (init, log) in
  let self := outcome.2.1 in
  outcome.1 = inr tt /\
  (forall k server_config e,
     (k, server_config) ∈ config ->
     handshake world k server_config = inl e ->
     sessions self !! k = None /\
     dict_get k (capabilities self) = None /\
     (forall name, tool_to_server self !! name <> Some k) /\
     (forall name, prompt_to_server self !! name <> Some k)) /\
  (forall k server_config session,
     (k, server_config) ∈ config ->
     handshake world k server_config = inr session ->
     sessions self !! k = Some session /\
     dict_get k (capabilities self) =
     Some {| caps_name := k;
             caps_tools := answered (ClientSession.list_tools session);
             caps_resources :=
               answered (ClientSession.list_resources session);
             caps_resource_templates :=
               answered (ClientSession.list_resource_templates session);
             caps_prompts :=
               answered (ClientSession.list_prompts session) |}) /\
  (forall k,
     is_Some (sessions self !! k) \/
     is_Some (dict_get k (capabilities self)) ->
     k ∈ config.*1) /\
  size (sessions self) +
    length (filter (fun entry => ~ connected world entry) config) =
    length config /\
  length (capabilities self) +
    length (filter (fun entry => ~ connected world entry) config) =
    length config.
Proof.
  intros Hnd outcome self.
  assert (self = foldl (after_connect world) init config) as Hself
    by apply connect_all_client.
  assert (forall k server_config e,
            (k, server_config) ∈ config ->
            handshake world k server_config = inl e ->
            sessions self !! k = None /\
            dict_get k (capabilities self) = None) as Habsent.
  { intros k sc e Hin Hh. rewrite Hself.
    destruct (unregistered_provider world config init k Hnd) as [-> ->];
      [|done].
    intros sc' Hin'.
    assert (dict_get k config = Some sc) as H1 by by apply dict_get_NoDup.
    assert (dict_get k config = Some sc') as H2 by by apply dict_get_NoDup.
    rewrite H1 in H2. injection H2 as <-.
    unfold connected. cbn [fst snd]. by rewrite Hh. }
  assert (length (capabilities self) =
          length (filter (fun entry => connected world entry) config))
    as Hlen.
  { rewrite <- (length_fmap fst (capabilities self)).
    change (fst <$> capabilities self) with (dict_keys (capabilities self)).
    rewrite Hself, capabilities_keys_after; [|done|].
    - cbn. by rewrite length_fmap.
    - intros k _. cbn. apply not_elem_of_nil. }
  assert (length (capabilities self) +
          length (filter (fun entry => ~ connected world entry) config) =
          length config) as Hcount.
  { rewrite Hlen. apply length_filter_complement. }
  refine (conj _ (conj _ (conj _ (conj _ (conj _ _))))).
  - apply connect_all_returns.
  - intros k sc e Hin Hh.
    destruct (Habsent k sc e Hin Hh) as [Hs Hc].
    refine (conj Hs (conj Hc (conj _ _))).
    + intros name. rewrite Hself, tool_to_server_after.
      destruct (last_owner advertised_tools world config name) as [o|] eqn:Ho;
        [|cbn; by rewrite lookup_empty].
      intros [= ->].
      apply last_owner_Some in Ho as (sc' & session & Hin' & Hh' & _).
      destruct (registered_provider world config init k sc' session)
        as [Hs' _]; [done..|].
      rewrite <- Hself, Hs in Hs'. discriminate.
    + intros name. rewrite Hself, prompt_to_server_after.
      destruct (last_owner advertised_prompts world config name)
        as [o|] eqn:Ho; [|cbn; by rewrite lookup_empty].
      intros [= ->].
      apply last_owner_Some in Ho as (sc' & session & Hin' & Hh' & _).
      destruct (registered_provider world config init k sc' session)
        as [Hs' _]; [done..|].
      rewrite <- Hself, Hs in Hs'. discriminate.
  - intros k sc session Hin Hh. rewrite Hself.
    by apply (registered_provider world config init k sc session).
  - intros k Hreg.
    destruct (decide (k ∈ config.*1)) as [|Hnotin]; [done|]. exfalso.
    destruct (unregistered_provider world config init k Hnd) as [Hs Hc].
    { intros sc Hin. destruct Hnotin.
      apply list_elem_of_fmap. by exists (k, sc). }
    rewrite <- Hself in Hs, Hc. cbn in Hs, Hc.
    rewrite lookup_empty in Hs. rewrite Hs, Hc in Hreg.
    destruct Hreg as [[? ?]|[? ?]]; discriminate.
  - rewrite consistent_size; [done| |].
    + apply reachable_consistent.
      exact (reachable_connect_all world (inr config) init log
               reachable_init).
    + rewrite Hself, capabilities_keys_after; [|done|].
      * cbn. by apply NoDup_connected_keys.
      * intros k _. cbn. apply not_elem_of_nil.
  - done.
Qed.

Lemma graceful_discovery_witness :
  NoDup [config_A; config_C; config_B].*1 /\
  (connect_all two_servers (inr [config_A; config_C; config_B]) (init, [])).1
  = inr tt.
Proof.
  assert (NoDup [config_A; config_C; config_B].*1) as Hnd.
  { apply (bool_decide_unpack (NoDup _)). vm_compute. exact I. }
  split; [exact Hnd|].
  exact (proj1 (graceful_discovery two_servers
                  [config_A; config_C; config_B] [] Hnd)).
Defined.

(** ** Collisions: the last provider to advertise a name owns it *)

Lemma collisions_elem kind server_name names
  (table : gmap string string) name existing :
  name ∈ names ->
  table !! name = Some existing ->
  Warn_collision kind name existing server_name
    ∈ collisions kind server_name names table.
Proof.
  revert table. induction names as [|n names IH]; intros table Hin Hex.
  - by apply elem_of_nil in Hin.
  - cbn [collisions]. destruct (decide (name = n)) as [<-|Hne].
    + rewrite Hex. apply elem_of_app. left. by left.
    + apply elem_of_app. right. apply IH.
      * apply elem_of_cons in Hin as [?|?]; done.
      * by rewrite lookup_insert_ne.
Qed.

Lemma advertises_elem advertised world entry name :
  advertises advertised world entry name = true ->
  exists session,
    handshake world entry.1 entry.2 = inr session /\
    name ∈ advertised session.
Proof.
  unfold advertises.
  destruct (handshake world entry.1 entry.2) as [e|session]; [done|].
  intros H. exists session. split; [done|].
  by apply bool_decide_eq_true in H.
Qed.

Lemma tool_collision_logged world self entry name existing :
  advertises advertised_tools world entry name = true ->
  tool_to_server self !! name = Some existing ->
  Warn_collision KTool name existing entry.1
    ∈ log_of_connect world self entry.
Proof.
  intros Hadv Hex. apply advertises_elem in Hadv as (session & Hh & Hin).
  unfold log_of_connect. rewrite Hh. right. unfold discovery_log.
  unfold advertised_tools in Hin.
  destruct (ClientSession.list_tools session) as [e|result];
    [by apply elem_of_nil in Hin|].
  apply elem_of_app. left. right. by apply collisions_elem.
Qed.

Lemma prompt_collision_logged world self entry name existing :
  advertises advertised_prompts world entry name = true ->
  prompt_to_server self !! name = Some existing ->
  Warn_collision KPrompt name existing entry.1
    ∈ log_of_connect world self entry.
Proof.
  intros Hadv Hex. apply advertises_elem in Hadv as (session & Hh & Hin).
  unfold log_of_connect. rewrite Hh. right. unfold discovery_log.
  unfold advertised_prompts in Hin.
  destruct (ClientSession.list_prompts session) as [e|result];
    [by apply elem_of_nil in Hin|].
  do 3 (apply elem_of_app; right). right. by apply collisions_elem.
Qed.

(** What is logged while one provider connects is still in the log when
    [connect_all] returns. *)
Lemma connect_all_log_elem world (before : MCPServersConfig) entry
  (after : MCPServersConfig) w record :
  record ∈ log_of_connect world
             (foldl (after_connect world) w.1 before) entry ->
  record ∈ (connect_all world (inr (before ++ entry :: after)) w).2.2.
Proof.
  intros Hin. destruct w as [self log]. rewrite run_connect_all.
  cbn [fst snd]. apply elem_of_app. left.
  rewrite foldl_app. cbn [foldl].
  destruct (connect_loop_log world after
              (connect_step world
                 (foldl (connect_step world)
                    (self, log ++ [Info_connecting_to
                                     (length (before ++ entry :: after))])
                    before) entry)) as [more ->].
  apply elem_of_app. left. unfold connect_step at 1. cbn [snd].
  apply elem_of_app. right. by rewrite connect_loop_client.
Qed.

Lemma last_owner_collide advertised world (before middle after : MCPServersConfig)
  a b name :
  collide advertised world a b (middle ++ after) name ->
  last_owner advertised world (before ++ a :: middle ++ b :: after) name
    = Some b.1 /\
  last_owner advertised world (before ++ a :: middle) name = Some a.1.
Proof.
  intros (Ha & Hb & Hothers). split.
  - rewrite (last_owner_app _ _ before). cbn [last_owner].
    rewrite (last_owner_app _ _ middle). cbn [last_owner].
    rewrite (last_owner_None _ _ after), Hb; [done|].
    intros e He. apply Hothers. apply elem_of_app. by right.
  - rewrite (last_owner_app _ _ before). cbn [last_owner].
    rewrite (last_owner_None _ _ middle), Ha; [done|].
    intros e He. apply Hothers. apply elem_of_app. by left.
Qed.

Lemma collide_swap advertised world a b others name :
  collide advertised world a b others name ->
  collide advertised world b a others name.
Proof. intros (Ha & Hb & Ho). by split. Qed.

Lemma tool_collision world (before middle after : MCPServersConfig) a b name w :
  collide advertised_tools world a b (middle ++ after) name ->
  let outcome :=
    connect_all world (inr (before ++ a :: middle ++ b :: after)) w in
  outcome.1 = inr tt /\
  tool_to_server outcome.2.1 !! name = Some b.1 /\
  Warn_collision KTool name a.1 b.1 ∈ outcome.2.2.
Proof.
  intros Hc outcome. subst outcome.
  destruct (last_owner_collide _ _ before middle after a b name Hc)
    as [Hlast Hfirst].
  refine (conj (connect_all_returns _ _ _) (conj _ _)).
  - destruct w as [self log].
    by rewrite connect_all_client, tool_to_server_after, Hlast.
  - replace (before ++ a :: middle ++ b :: after)
      with ((before ++ a :: middle) ++ b :: after)
      by (by rewrite <- app_assoc).
    apply connect_all_log_elem. apply tool_collision_logged; [apply Hc|].
    by rewrite tool_to_server_after, Hfirst.
Qed.

Lemma prompt_collision world (before middle after : MCPServersConfig) a b
  name w :
  collide advertised_prompts world a b (middle ++ after) name ->
  let outcome :=
    connect_all world (inr (before ++ a :: middle ++ b :: after)) w in
  outcome.1 = inr tt /\
  prompt_to_server outcome.2.1 !! name = Some b.1 /\
  Warn_collision KPrompt name a.1 b.1 ∈ outcome.2.2.
Proof.
  intros Hc outcome. subst outcome.
  destruct (last_owner_collide _ _ before middle after a b name Hc)
    as [Hlast Hfirst].
  refine (conj (connect_all_returns _ _ _) (conj _ _)).
  - destruct w as [self log].
    by rewrite connect_all_client, prompt_to_server_after, Hlast.
  - replace (before ++ a :: middle ++ b :: after)
      with ((before ++ a :: middle) ++ b :: after)
      by (by rewrite <- app_assoc).
    apply connect_all_log_elem. apply prompt_collision_logged; [apply Hc|].
    by rewrite prompt_to_server_after, Hfirst.
Qed.

(** C5.  Let providers [a] and [b] both advertise the tool (prompt)
    [name], anywhere in a configuration whose other providers between
    and after them do not.  Connected with [a] before [b],
    [connect_all] returns normally, the routing table maps [name] to
    [b], and the warning naming [a] as overridden by [b] is in the log;
    with the two exchanged it maps [name] to [a], with the mirrored
    warning. *)
Theorem collision_last_write_wins (world : World)
  (before middle after : MCPServersConfig) (a b : string * ServerConfig)
  (name : string) (w : Mem) :
  let a_then_b :=
    connect_all world (inr (before ++ a :: middle ++ b :: after)) w in
  let b_then_a :=
    connect_all world (inr (before ++ b :: middle ++ a :: after)) w in
  (collide advertised_tools world a b (middle ++ after) name ->
   (a_then_b.1 = inr tt /\
    tool_to_server a_then_b.2.1 !! name = Some b.1 /\
    Warn_collision KTool name a.1 b.1 ∈ a_then_b.2.2) /\
   (b_then_a.1 = inr tt /\
    tool_to_server b_then_a.2.1 !! name = Some a.1 /\
    Warn_collision KTool name b.1 a.1 ∈ b_then_a.2.2)) /\
  (collide advertised_prompts world a b (middle ++ after) name ->
   (a_then_b.1 = inr tt /\
    prompt_to_server a_then_b.2.1 !! name = Some b.1 /\
    Warn_collision KPrompt name a.1 b.1 ∈ a_then_b.2.2) /\
   (b_then_a.1 = inr tt /\
    prompt_to_server b_then_a.2.1 !! name = Some a.1 /\
    Warn_collision KPrompt name b.1 a.1 ∈ b_then_a.2.2)).
Proof.
  intros a_then_b b_then_a. split; intros Hc; split.
  - by apply tool_collision.
  - by apply tool_collision, collide_swap.
  - by apply prompt_collision.
  - by apply prompt_collision, collide_swap.
Qed.

Lemma collision_last_write_wins_witness :
  collide advertised_tools two_servers config_A config_B ([config_C] ++ [])
    "n" /\
  tool_to_server
    (connect_all two_servers (inr ([] ++ config_A :: [config_C] ++
                                     config_B :: [])) (init, [])).2.1
    !! "n" = Some "B" /\
  tool_to_server
    (connect_all two_servers (inr ([] ++ config_B :: [config_C] ++
                                     config_A :: [])) (init, [])).2.1
    !! "n" = Some "A".
Proof.
  assert (collide advertised_tools two_servers config_A config_B
            ([config_C] ++ []) "n") as Hc.
  { split; [vm_compute; reflexivity|]. split; [vm_compute; reflexivity|].
    intros entry Hin. apply list_elem_of_singleton in Hin as ->.
    vm_compute; reflexivity. }
  split; [exact Hc|].
  destruct (proj1 (collision_last_write_wins two_servers [] [config_C] []
                     config_A config_B "n" (init, [])) Hc)
    as [(_ & Hab & _) (_ & Hba & _)].
  split; [exact Hab | exact Hba].
Defined.

(** ** Listings *)

Lemma foldl_snoc_fmap {A B} (g : B -> A) (l : list B) (acc : list A) :
  foldl (fun acc x => acc ++ [g x]) acc l = acc ++ (g <$> l).
Proof.
  revert acc. induction l as [|x l IH]; intros acc; cbn [foldl fmap list_fmap].
  - by rewrite app_nil_r.
  - rewrite IH. by rewrite <- app_assoc.
Qed.

(** The accumulating loops of a listing compute the concatenation. *)
Ltac aggregate_loop attribute :=
  match goal with
  | |- foldl ?F [] ?l = flat_map ?G ?l =>
      let Hloop := fresh "Hloop" in
      enough (forall acc, foldl F acc l = acc ++ flat_map G l) as Hloop
        by apply (Hloop []);
      let server_name := fresh "server_name" in
      let IH := fresh "IH" in
      induction l as [|[server_name ?] ? IH]; intros acc;
      cbn [foldl flat_map];
      [ by rewrite app_nil_r
      | rewrite IH;
        match goal with
        | |- context [match ?field with Some _ => _ | None => _ end] =>
            destruct field as [?|]; cbn [default fmap option_fmap option_map]
        end;
        [ etrans;
          [ apply (f_equal (fun x => x ++ _));
            apply (foldl_snoc_fmap (attribute server_name))
          | by rewrite <- app_assoc ]
        | done ] ]
  end.

Lemma list_tools_aggregated self log :
  list_tools None (self, log) =
  (inr {| tools :=
            aggregated (fun snap => tools <$> caps_tools snap)
              attributed_tool self;
          tools_nextCursor := None |},
   (self, log)).
Proof.
  unfold list_tools, aggregated, bind, get_self, ret. cbn [fst snd].
  do 3 f_equal. aggregate_loop attributed_tool.
Qed.

Lemma list_prompts_aggregated self log :
  list_prompts None (self, log) =
  (inr {| prompts :=
            aggregated (fun snap => prompts <$> caps_prompts snap)
              attributed_prompt self;
          prompts_nextCursor := None |},
   (self, log)).
Proof.
  unfold list_prompts, aggregated, bind, get_self, ret. cbn [fst snd].
  do 3 f_equal. aggregate_loop attributed_prompt.
Qed.

Lemma list_resources_aggregated use_namespace self log :
  list_resources None use_namespace (self, log) =
  (inr {| resources :=
            aggregated (fun snap => resources <$> caps_resources snap)
              (attributed_resource use_namespace) self;
          resources_nextCursor := None |},
   (self, log)).
Proof.
  unfold list_resources, aggregated, bind, get_self, ret. cbn [fst snd].
  do 3 f_equal. aggregate_loop (attributed_resource use_namespace).
Qed.

Lemma list_resource_templates_aggregated use_namespace self log :
  list_resource_templates None use_namespace (self, log) =
  (inr {| resourceTemplates :=
            aggregated
              (fun snap => resourceTemplates <$> caps_resource_templates snap)
              (attributed_template use_namespace) self;
          templates_nextCursor := None |},
   (self, log)).
Proof.
  unfold list_resource_templates, aggregated, bind, get_self, ret.
  cbn [fst snd].
  do 3 f_equal. aggregate_loop (attributed_template use_namespace).
Qed.

Lemma lookup_server_name (meta : option (gmap string Json)) server_name :
  (<["serverName" := JStr server_name]> (meta_of meta)) !! "serverName"
    = Some (JStr server_name) /\
  forall k, k <> "serverName" ->
    (<["serverName" := JStr server_name]> (meta_of meta)) !! k
      = meta_of meta !! k.
Proof.
  split; [apply lookup_insert_eq|].
  intros k Hk. by apply lookup_insert_ne.
Qed.

(** C6, as the code has it.  With the cursor absent each listing
    returns, leaving client and log untouched (so a repeated call gives
    the same list), the concatenation over [capabilities], in its
    iteration order and then in snapshot order, of the snapshot entries
    of its kind.  Each listed entry keeps its name; its meta maps
    [serverName] to the owning server and agrees with the entry's own
    meta on every other key, so a [serverName] the entry already carried
    is replaced.  Resources and templates get the prefix
    [<server_name>:] on their URI when [use_namespace] is true and keep
    the URI otherwise. *)
Theorem listing_postcondition (self : MultiServerClient)
  (log : list LogRecord) (use_namespace : bool) :
  (list_tools None (self, log) =
   (inr {| tools :=
             aggregated (fun snap => tools <$> caps_tools snap)
               attributed_tool self;
           tools_nextCursor := None |}, (self, log)) /\
   list_prompts None (self, log) =
   (inr {| prompts :=
             aggregated (fun snap => prompts <$> caps_prompts snap)
               attributed_prompt self;
           prompts_nextCursor := None |}, (self, log)) /\
   list_resources None use_namespace (self, log) =
   (inr {| resources :=
             aggregated (fun snap => resources <$> caps_resources snap)
               (attributed_resource use_namespace) self;
           resources_nextCursor := None |}, (self, log)) /\
   list_resource_templates None use_namespace (self, log) =
   (inr {| resourceTemplates :=
             aggregated
               (fun snap =>
                  resourceTemplates <$> caps_resource_templates snap)
               (attributed_template use_namespace) self;
           templates_nextCursor := None |}, (self, log))) /\
  (forall server_name tool,
     tool_name (attributed_tool server_name tool) = tool_name tool /\
     meta_of (tool_meta (attributed_tool server_name tool)) !! "serverName"
       = Some (JStr server_name) /\
     forall k, k <> "serverName" ->
       meta_of (tool_meta (attributed_tool server_name tool)) !! k
         = meta_of (tool_meta tool) !! k) /\
  (forall server_name prompt,
     prompt_name (attributed_prompt server_name prompt) = prompt_name prompt /\
     meta_of (prompt_meta (attributed_prompt server_name prompt))
       !! "serverName" = Some (JStr server_name) /\
     forall k, k <> "serverName" ->
       meta_of (prompt_meta (attributed_prompt server_name prompt)) !! k
         = meta_of (prompt_meta prompt) !! k) /\
  (forall server_name resource,
     resource_uri (attributed_resource use_namespace server_name resource)
       = (if use_namespace
          then server_name +:+ ":" +:+ resource_uri resource
          else resource_uri resource) /\
     resource_name (attributed_resource use_namespace server_name resource)
       = resource_name resource /\
     meta_of (resource_meta
                (attributed_resource use_namespace server_name resource))
       !! "serverName" = Some (JStr server_name) /\
     forall k, k <> "serverName" ->
       meta_of (resource_meta
                  (attributed_resource use_namespace server_name resource))
         !! k = meta_of (resource_meta resource) !! k) /\
  (forall server_name template,
     template_uriTemplate
       (attributed_template use_namespace server_name template)
       = (if use_namespace
          then server_name +:+ ":" +:+ template_uriTemplate template
          else template_uriTemplate template) /\
     template_name (attributed_template use_namespace server_name template)
       = template_name template /\
     meta_of (template_meta
                (attributed_template use_namespace server_name template))
       !! "serverName" = Some (JStr server_name) /\
     forall k, k <> "serverName" ->
       meta_of (template_meta
                  (attributed_template use_namespace server_name template))
         !! k = meta_of (template_meta template) !! k).
Proof.
  refine (conj (conj _ (conj _ (conj _ _))) (conj _ (conj _ (conj _ _)))).
  - apply list_tools_aggregated.
  - apply list_prompts_aggregated.
  - apply list_resources_aggregated.
  - apply list_resource_templates_aggregated.
  - intros server_name tool. split; [done|].
    apply (lookup_server_name (tool_meta tool)).
  - intros server_name prompt. split; [done|].
    apply (lookup_server_name (prompt_meta prompt)).
  - intros server_name resource. split; [done|]. split; [done|].
    apply (lookup_server_name (resource_meta resource)).
  - intros server_name template. split; [done|]. split; [done|].
    apply (lookup_server_name (template_meta template)).
Qed.

Lemma listing_postcondition_witness :
  "tag" <> "serverName" /\
  (list_tools None (client_relay, [])).1 =
    inr {| tools := [attributed_tool "A" relayed_tool];
           tools_nextCursor := None |} /\
  meta_of (tool_meta (attributed_tool "A" relayed_tool)) !! "tag"
    = Some (JNum 7).
Proof.
  split; [discriminate|]. split.
  - rewrite (proj1 (proj1 (listing_postcondition client_relay [] true))).
    reflexivity.
  - rewrite (proj2 (proj2 (proj1 (proj2
               (listing_postcondition client_relay [] true)) "A"
               relayed_tool)) "tag") by discriminate.
    vm_compute. reflexivity.
Defined.

(** C6 as stated fails where it says that the merge does not destroy
    what the entry carried: the tool that server [A] relays carries
    [serverName = "upstream"], and the listing does not keep every key
    of its meta. *)
Lemma listing_overwrites_carried_server_name :
  dict_get "A" (capabilities client_relay) = Some (snapshot "A" session_R) /\
  caps_tools (snapshot "A" session_R)
    = Some {| tools := [relayed_tool]; tools_nextCursor := None |} /\
  ~ (forall listing,
       (list_tools None (client_relay, [])).1 = inr listing ->
       forall listed, listed ∈ tools listing ->
       forall k v,
         meta_of (tool_meta relayed_tool) !! k = Some v ->
         meta_of (tool_meta listed) !! k = Some v).
Proof.
  split; [vm_compute; reflexivity|]. split; [reflexivity|].
  intros Hkeep.
  specialize (Hkeep {| tools := [attributed_tool "A" relayed_tool];
                       tools_nextCursor := None |}).
  rewrite list_tools_aggregated in Hkeep.
  specialize (Hkeep eq_refl (attributed_tool "A" relayed_tool)).
  cbn [tools] in Hkeep.
  specialize (Hkeep ltac:(by left) "serverName" (JStr "upstream")).
  vm_compute in Hkeep. specialize (Hkeep eq_refl). discriminate.
Qed.

(** ** Namespacing round trip *)




(** ** Running the connect sequence again *)

(** C7 as stated fails: after servers [A] and [B] connected in a first
    run, a second run in which no server answers leaves their sessions,
    snapshots and bindings in place, although no provider connected
    during that second run. *)
Lemma rerun_keeps_earlier_entries :
  let first :=
    (connect_all two_servers (inr [config_A; config_B]) (init, [])).2 in
  let second :=
    (connect_all no_server (inr [config_A; config_B]) first).2.1 in
  (forall entry, entry ∈ [config_A; config_B] ->
                 connected no_server entry = false) /\
  sessions second !! "A" = Some session_A /\
  dict_get "B" (capabilities second) = Some (snapshot "B" session_B) /\
  tool_to_server second !! "x" = Some "A" /\
  prompt_to_server second !! "p" = Some "B" /\
  ~ (forall k,
       is_Some (sessions second !! k) ->
       exists server_config session,
         (k, server_config) ∈ [config_A; config_B] /\
         handshake no_server k server_config = inr session).
Proof.
  intros first second.
  split; [by intros entry _|].
  split; [vm_compute; reflexivity|].
  split; [vm_compute; reflexivity|].
  split; [vm_compute; reflexivity|].
  split; [vm_compute; reflexivity|].
  intros Hexact.
  destruct (Hexact "A") as (sc & session & _ & Hh).
  - exists session_A. vm_compute. reflexivity.
  - discriminate.
Qed.

(** C7, as the code has it.  [connect_all] clears nothing.  Run a second
    time (names of the second configuration unique), it returns
    normally; every provider that connects in the second run has its
    session and its snapshot replaced by the new ones; for every name
    that does not connect in the second run, session and snapshot are
    what the first run left; a tool or prompt name is bound to the last
    provider of the second run that advertises it, and keeps the first
    run's binding when none does. *)
Theorem rerun_overwrites_and_keeps (world1 world2 : World)
  (config1 config2 : MCPServersConfig) (log : list LogRecord) :
  NoDup config2.*1 ->
  let first := connect_all world1 (inr config1) (init, log) in
  let second := connect_all world2 (inr config2) first.2 in
  let before := first.2.1 in
  let self := second.2.1 in
  second.1 = inr tt /\
  (forall k server_config session,
     (k, server_config) ∈ config2 ->
     handshake world2 k server_config = inr session ->
     sessions self !! k = Some session /\
     dict_get k (capabilities self) = Some (snapshot k session)) /\
  (forall k,
     (forall server_config,
        (k, server_config) ∈ config2 ->
        connected world2 (k, server_config) = false) ->
     sessions self !! k = sessions before !! k /\
     dict_get k (capabilities self) = dict_get k (capabilities before)) /\
  (forall name,
     tool_to_server self !! name =
     match last_owner advertised_tools world2 config2 name with
     | Some owner => Some owner
     | None => tool_to_server before !! name
     end) /\
  (forall name,
     prompt_to_server self !! name =
     match last_owner advertised_prompts world2 config2 name with
     | Some owner => Some owner
     | None => prompt_to_server before !! name
     end).
Proof.
  intros Hnd first second before self.
  assert (self = foldl (after_connect world2) before config2) as ->.
  { subst self second before. destruct first.2 as [c l].
    apply connect_all_client. }
  refine (conj (connect_all_returns _ _ _) (conj _ (conj _ (conj _ _)))).
  - intros k sc session Hin Hh. by eapply registered_provider.
  - intros k Hfail. by apply unregistered_provider.
  - intros name. apply tool_to_server_after.
  - intros name. apply prompt_to_server_after.
Qed.

Lemma rerun_overwrites_and_keeps_witness :
  NoDup [config_A; config_B].*1 /\
  sessions
    (connect_all no_server (inr [config_A; config_B])
       (connect_all two_servers (inr [config_A; config_B]) (init, [])).2).2.1
    !! "A" = Some session_A.
Proof.
  split; [exact config_AB_NoDup|].
  destruct (proj1 (proj2 (proj2
              (rerun_overwrites_and_keeps two_servers no_server
                 [config_A; config_B] [config_A; config_B] []
                 config_AB_NoDup))) "A") as [Hs _].
  - by intros sc _.
  - rewrite Hs. vm_compute. reflexivity.
Defined.

(* ===================================================================== *)
(** * Further properties of the client and of its helpers *)
(* ===================================================================== *)

(** ** Loading fails before anything is connected *)

(** When the configuration file is missing, is not JSON or does not
    validate, [connect_all] raises that very exception, whatever the
    servers would have answered, with the client and the log as they
    were: no provider is contacted and not even the first log line is
    written. *)
Theorem connect_all_unloadable_config (loader : Loader)
  (config_path : string) (world : World) (w : Mem) :
  (path_exists loader config_path = false ->
   connect_all world (load_config loader config_path) w =
   (inl (FileNotFoundError
           ("Configuration file not found: " +:+ config_path)), w)) /\
  (forall e,
     path_exists loader config_path = true ->
     json_load loader config_path = inl e ->
     connect_all world (load_config loader config_path) w = (inl e, w)) /\
  (forall config_data e,
     path_exists loader config_path = true ->
     json_load loader config_path = inr config_data ->
     model_validate loader config_data = inl e ->
     connect_all world (load_config loader config_path) w = (inl e, w)).
Proof.
  unfold load_config. refine (conj _ (conj _ _)).
  - intros ->. apply run_connect_all_not_loaded.
  - intros e -> ->. apply run_connect_all_not_loaded.
  - intros config_data e -> -> ->. apply run_connect_all_not_loaded.
Qed.

Lemma connect_all_unloadable_config_witness :
  path_exists no_file "mcp_servers.json" = false /\
  connect_all two_servers (load_config no_file "mcp_servers.json")
    (client_AB, []) =
  (inl (FileNotFoundError
          "Configuration file not found: mcp_servers.json"),
   (client_AB, [])).
Proof.
  split; [reflexivity|].
  apply (proj1 (connect_all_unloadable_config no_file "mcp_servers.json"
                  two_servers (client_AB, []))).
  reflexivity.
Defined.

(** ** Nothing is ever removed *)

Lemma keeps_refl self : keeps self self.
Proof.
  repeat split; try done. exists []. by rewrite app_nil_r.
Qed.

Lemma keeps_trans a b c : keeps a b -> keeps b c -> keeps a c.
Proof.
  intros (Hs1 & Hc1 & Ht1 & Hp1 & more1 & Hk1)
         (Hs2 & Hc2 & Ht2 & Hp2 & more2 & Hk2).
  repeat split; [by auto..|].
  exists (more1 ++ more2). by rewrite Hk2, Hk1, app_assoc.
Qed.

Lemma dict_keys_set_extends {V} (d : list (string * V)) k v :
  exists more, dict_keys (dict_set k v d) = dict_keys d ++ more.
Proof.
  unfold dict_keys. induction d as [|[k' v'] d [more IH]]; cbn.
  - by exists [k].
  - destruct (decide (k = k')) as [->|Hne]; cbn.
    + exists []. by rewrite app_nil_r.
    + exists more. by rewrite IH.
Qed.

Lemma is_Some_bind_all server_name names (table : gmap string string) name :
  is_Some (table !! name) ->
  is_Some (bind_all server_name names table !! name).
Proof.
  intros H. rewrite lookup_bind_all. by case_bool_decide.
Qed.

Lemma keeps_after_connect world self entry :
  keeps self (after_connect world self entry).
Proof.
  unfold after_connect.
  destruct (handshake world entry.1 entry.2) as [e|session];
    [apply keeps_refl|].
  refine (conj _ (conj _ (conj _ (conj _ _)))); cbn.
  - intros k. apply is_Some_lookup_insert_mono.
  - intros k Hk. destruct (decide (entry.1 = k)) as [<-|Hne].
    + by rewrite dict_get_set_eq.
    + by rewrite dict_get_set_ne.
  - intros name. apply is_Some_bind_all.
  - intros name. apply is_Some_bind_all.
  - apply dict_keys_set_extends.
Qed.

Lemma keeps_loop world (config : MCPServersConfig) self :
  keeps self (foldl (after_connect world) self config).
Proof.
  revert self. induction config as [|entry config IH]; intros self.
  - apply keeps_refl.
  - cbn [foldl]. eapply keeps_trans; [apply keeps_after_connect | apply IH].
Qed.

(** Whatever the configuration and whatever the servers answer,
    [connect_all] removes nothing: every server that had a session or a
    snapshot still has one, every bound tool or prompt name is still
    bound, and the snapshots that were there keep their places at the
    front of the iteration order, so earlier providers keep their place
    in every listing. *)
Theorem connect_all_never_forgets (world : World)
  (loaded : Exn + MCPServersConfig) (self : MultiServerClient)
  (log : list LogRecord) :
  let after := (connect_all world loaded (self, log)).2.1 in
  (forall k, is_Some (sessions self !! k) -> is_Some (sessions after !! k)) /\
  (forall k, is_Some (dict_get k (capabilities self)) ->
             is_Some (dict_get k (capabilities after))) /\
  (forall name, is_Some (tool_to_server self !! name) ->
                is_Some (tool_to_server after !! name)) /\
  (forall name, is_Some (prompt_to_server self !! name) ->
                is_Some (prompt_to_server after !! name)) /\
  (exists more,
     dict_keys (capabilities after) = dict_keys (capabilities self) ++ more).
Proof.
  intros after. subst after. destruct loaded as [e|config].
  - rewrite run_connect_all_not_loaded. apply keeps_refl.
  - rewrite connect_all_client. apply keeps_loop.
Qed.

Lemma connect_all_never_forgets_witness :
  is_Some (sessions client_AB !! "B") /\
  is_Some (sessions
             (connect_all no_server (inr [config_B; config_C])
                (client_AB, [])).2.1 !! "B").
Proof.
  assert (is_Some (sessions client_AB !! "B")) as HB.
  { exists session_B. vm_compute. reflexivity. }
  split; [exact HB|].
  exact (proj1 (connect_all_never_forgets no_server
                  (inr [config_B; config_C]) client_AB []) "B" HB).
Defined.

(** ** The log of a run *)

Lemma filter_failure_collisions kind server_name names
  (table : gmap string string) :
  filter (fun r => is_connect_failure r)
    (collisions kind server_name names table) = [].
Proof.
  revert table. induction names as [|n names IH]; intros table; [done|].
  cbn [collisions]. rewrite filter_app, IH.
  by destruct (table !! n).
Qed.

Lemma filter_failure_discovery_log server_name session self :
  filter (fun r => is_connect_failure r)
    (discovery_log server_name session self) = [].
Proof.
  unfold discovery_log. rewrite !filter_app.
  destruct (ClientSession.list_tools session),
    (ClientSession.list_resources session),
    (ClientSession.list_resource_templates session),
    (ClientSession.list_prompts session);
    rewrite ?filter_cons_False by exact id;
    by rewrite ?filter_failure_collisions.
Qed.

Lemma filter_failure_log_of_connect world self entry :
  filter (fun r => is_connect_failure r) (log_of_connect world self entry) =
  match handshake world entry.1 entry.2 with
  | inl e => [Warn_failed_to_connect entry.1 e]
  | inr _ => []
  end.
Proof.
  unfold log_of_connect. rewrite filter_cons_False by exact id.
  destruct (handshake world entry.1 entry.2) as [e|session].
  - by rewrite filter_cons_True by exact I.
  - apply filter_failure_discovery_log.
Qed.

Lemma connect_loop_failures world (config : MCPServersConfig) w :
  exists during,
    (foldl (connect_step world) w config).2 = w.2 ++ during /\
    filter (fun r => is_connect_failure r) during =
    failure_warnings world config.
Proof.
  revert w. induction config as [|[k sc] config IH]; intros w.
  - exists []. by rewrite app_nil_r.
  - cbn [foldl]. destruct (IH (connect_step world w (k, sc)))
      as (during & -> & Hfilter).
    exists (log_of_connect world w.1 (k, sc) ++ during). split.
    + unfold connect_step. cbn [snd]. by rewrite app_assoc.
    + rewrite filter_app, filter_failure_log_of_connect, Hfilter.
      unfold failure_warnings. cbn [flat_map fst snd]. done.
Qed.

(** What a run writes to the log: first the number of configured
    servers, last the number of sessions the client then holds, and in
    between exactly one "Failed to connect" warning for each provider
    whose opening or handshake raised, with its name and exception, in
    configuration order (and none for a provider that connected). *)
Theorem connect_all_log (world : World) (config : MCPServersConfig)
  (self : MultiServerClient) (log : list LogRecord) :
  let outcome := connect_all world (inr config) (self, log) in
  exists during,
    outcome.2.2 =
      log ++ Info_connecting_to (length config) :: during ++
      [Info_connected (size (sessions outcome.2.1))] /\
    filter (fun r => is_connect_failure r) during =
      failure_warnings world config.
Proof.
  intros outcome. subst outcome. rewrite run_connect_all. cbn [fst snd].
  destruct (connect_loop_failures world config
              (self, log ++ [Info_connecting_to (length config)]))
    as (during & Hlog & Hfilter).
  exists during. split; [|done].
  rewrite Hlog. cbn [snd]. by rewrite <- !app_assoc.
Qed.

(** A provider that connects but fails a discovery query has that
    failure in the log of the run, as a "No <kind> available" warning
    with its name and the exception, for each of the four kinds. *)
Theorem discovery_failures_are_logged (world : World)
  (config : MCPServersConfig) (w : Mem) (k : string)
  (server_config : ServerConfig) (session : ClientSession.t) :
  (k, server_config) ∈ config ->
  handshake world k server_config = inr session ->
  let log := (connect_all world (inr config) w).2.2 in
  (forall e, ClientSession.list_tools session = inl e ->
             Warn_none_available k KTool e ∈ log) /\
  (forall e, ClientSession.list_resources session = inl e ->
             Warn_none_available k KResource e ∈ log) /\
  (forall e, ClientSession.list_resource_templates session = inl e ->
             Warn_none_available k KResourceTemplate e ∈ log) /\
  (forall e, ClientSession.list_prompts session = inl e ->
             Warn_none_available k KPrompt e ∈ log).
Proof.
  intros Hin Hh log. subst log.
  apply list_elem_of_split in Hin as (before & after & ->).
  refine (conj _ (conj _ (conj _ _))); intros e He;
    apply connect_all_log_elem; unfold log_of_connect; cbn [fst snd];
    rewrite Hh; right; unfold discovery_log; rewrite He.
  - apply elem_of_app. left. by left.
  - apply elem_of_app. right. apply elem_of_app. left. by left.
  - do 2 (apply elem_of_app; right). apply elem_of_app. left. by left.
  - do 3 (apply elem_of_app; right). by left.
Qed.

Lemma discovery_failures_are_logged_witness :
  config_A ∈ [config_A] /\
  handshake mute_server "A" config_A.2 = inr session_mute /\
  Warn_none_available "A" KTool (McpError (-32601) "Method not found")
    ∈ (connect_all mute_server (inr [config_A]) (init, [])).2.2.
Proof.
  assert (config_A ∈ [config_A]) as Hin by (by left).
  split; [exact Hin|]. split; [reflexivity|].
  apply (proj1 (discovery_failures_are_logged mute_server [config_A]
                  (init, []) "A" config_A.2 session_mute Hin eq_refl)).
  reflexivity.
Defined.

(** ** Snapshots and listings follow the configuration *)

Lemma capabilities_after_fresh world (config : MCPServersConfig) self :
  NoDup config.*1 ->
  (forall k, k ∈ config.*1 -> k ∉ dict_keys (capabilities self)) ->
  capabilities (foldl (after_connect world) self config) =
  capabilities self ++ connected_snapshots world config.
Proof.
  revert self. induction config as [|[k sc] config IH]; intros self Hnd Hnew.
  - cbn. by rewrite app_nil_r.
  - cbn [fmap list_fmap fst] in Hnd. apply NoDup_cons in Hnd as [Hk Hnd].
    cbn [foldl]. unfold connected_snapshots. cbn [flat_map].
    fold (connected_snapshots world config).
    assert (k ∉ dict_keys (capabilities self)) as Hfresh
      by (apply Hnew; left).
    unfold after_connect at 2. cbn [fst snd].
    destruct (handshake world k sc) as [e|session] eqn:Hh.
    + rewrite IH; [done|done|]. intros k' Hk'. apply Hnew. by right.
    + rewrite IH; [|done|].
      * cbn [registered capabilities]. rewrite dict_set_fresh by done.
        by rewrite <- app_assoc.
      * intros k' Hk'. cbn [registered capabilities].
        rewrite dict_keys_set. intros [->|Hin]; [done|].
        revert Hin. apply Hnew. by right.
Qed.

(** On a fresh client and a configuration with unique names, the
    snapshot dictionary after [connect_all] is exactly the snapshots of
    the providers that connected, in configuration order; so the tool
    listing is the tools of those providers, in configuration order and
    then in the order each server reported them. *)
Theorem snapshots_follow_configuration (world : World)
  (config : MCPServersConfig) (log log' : list LogRecord) :
  NoDup config.*1 ->
  let self := (connect_all world (inr config) (init, log)).2.1 in
  capabilities self = connected_snapshots world config /\
  (list_tools None (self, log')).1 =
  inr {| tools :=
           flat_map (fun '(server_name, snap) =>
                       attributed_tool server_name <$>
                       default [] (tools <$> caps_tools snap))
             (connected_snapshots world config);
         tools_nextCursor := None |}.
Proof.
  intros Hnd self.
  assert (capabilities self = connected_snapshots world config) as Hcaps.
  { subst self. rewrite connect_all_client, capabilities_after_fresh; [done..|].
    intros k _. cbn. apply not_elem_of_nil. }
  split; [done|].
  rewrite list_tools_aggregated. cbn [fst]. unfold aggregated.
  by rewrite Hcaps.
Qed.

Lemma snapshots_follow_configuration_witness :
  NoDup [config_B; config_C; config_A].*1 /\
  capabilities
    (connect_all two_servers (inr [config_B; config_C; config_A])
       (init, [])).2.1 =
  [("B", snapshot "B" session_B); ("A", snapshot "A" session_A)].
Proof.
  assert (NoDup [config_B; config_C; config_A].*1) as Hnd.
  { apply (bool_decide_unpack (NoDup _)). vm_compute. exact I. }
  split; [exact Hnd|].
  exact (proj1 (snapshots_follow_configuration two_servers
                  [config_B; config_C; config_A] [] [] Hnd)).
Defined.

(** ** Routing after a collision, and under the empty name *)

Lemma call_tool_explicit self name arguments read_timeout_seconds
  progress_callback server_name session snap result :
  sessions self !! server_name = Some session ->
  dict_get server_name (capabilities self) = Some snap ->
  caps_tools snap = Some result ->
  name ∈ tool_name <$> tools result ->
  call_tool self name arguments read_timeout_seconds progress_callback
    (Some server_name) =
  Forwarded session
    (Call_tool name arguments read_timeout_seconds progress_callback).
Proof.
  intros Hs Hsnap Hres Hin. unfold call_tool.
  rewrite decide_True by (by rewrite Hs).
  rewrite Hsnap, Hres, decide_True by done. by rewrite Hs.
Qed.

Lemma advertised_tools_snapshot server_name session name :
  name ∈ advertised_tools session ->
  exists result,
    caps_tools (snapshot server_name session) = Some result /\
    name ∈ tool_name <$> tools result.
Proof.
  intros Hin. apply advertised_tools_elem in Hin as (result & Hres & Hin).
  exists result. cbn. by rewrite Hres.
Qed.

(** When two providers collide on a tool name, the later one is called
    by default, and the earlier one's tool, though shadowed in the
    routing table, is still reached by naming its server: with [a]
    before [b] in a configuration with unique names, both advertising
    [name] (no provider after them does, and [b]'s name is not empty),
    [call_tool name] goes to [b]'s session and
    [call_tool name server_name=a] to [a]'s. *)
Theorem shadowed_tool_reached_by_server_name (world : World)
  (before middle after : MCPServersConfig) (a b : string * ServerConfig)
  (name : string) (w : Mem) (arguments : gmap string Json)
  (read_timeout_seconds : option Z) (progress_callback : option nat) :
  NoDup (before ++ a :: middle ++ b :: after).*1 ->
  collide advertised_tools world a b (middle ++ after) name ->
  truthy b.1 = true ->
  let self :=
    (connect_all world (inr (before ++ a :: middle ++ b :: after)) w).2.1 in
  exists session_a session_b,
    handshake world a.1 a.2 = inr session_a /\
    handshake world b.1 b.2 = inr session_b /\
    call_tool self name arguments read_timeout_seconds progress_callback
      None =
    Forwarded session_b
      (Call_tool name arguments read_timeout_seconds progress_callback) /\
    call_tool self name arguments read_timeout_seconds progress_callback
      (Some a.1) =
    Forwarded session_a
      (Call_tool name arguments read_timeout_seconds progress_callback).
Proof.
  intros Hnd Hc Htruthy self. destruct w as [c l].
  assert (self = foldl (after_connect world) c
                   (before ++ a :: middle ++ b :: after)) as Hself
    by apply connect_all_client.
  destruct (last_owner_collide _ _ before middle after a b name Hc)
    as [Hlast _].
  destruct Hc as (Ha & Hb & _).
  apply advertises_elem in Ha as (session_a & Hha & Hina).
  apply advertises_elem in Hb as (session_b & Hhb & Hinb).
  destruct a as [ka sca], b as [kb scb]. cbn [fst snd] in *.
  exists session_a, session_b. refine (conj Hha (conj Hhb (conj _ _))).
  - unfold call_tool. rewrite Hself, tool_to_server_after, Hlast, Htruthy.
    cbn [fst].
    destruct (registered_provider world
                (before ++ (ka, sca) :: middle ++ (kb, scb) :: after)
                c kb scb session_b) as [-> _]; [done| |done..].
    apply elem_of_app. right. right. apply elem_of_app. right. by left.
  - destruct (registered_provider world
                (before ++ (ka, sca) :: middle ++ (kb, scb) :: after)
                c ka sca session_a) as [Hs Hsnap]; [done| |done|].
    { apply elem_of_app. right. by left. }
    destruct (advertised_tools_snapshot ka session_a name Hina)
      as (result & Hres & Hin).
    rewrite Hself. by eapply call_tool_explicit.
Qed.

Lemma shadowed_tool_reached_by_server_name_witness :
  NoDup ([] ++ config_A :: [] ++ config_B :: []).*1 /\
  collide advertised_tools two_servers config_A config_B ([] ++ []) "n" /\
  call_tool client_AB "n" ∅ None None None =
    Forwarded session_B (Call_tool "n" ∅ None None) /\
  call_tool client_AB "n" ∅ None None (Some "A") =
    Forwarded session_A (Call_tool "n" ∅ None None).
Proof.
  assert (collide advertised_tools two_servers config_A config_B
            ([] ++ []) "n") as Hc.
  { split; [vm_compute; reflexivity|]. split; [vm_compute; reflexivity|].
    intros entry Hin. by apply elem_of_nil in Hin. }
  split; [exact config_AB_NoDup|]. split; [exact Hc|].
  destruct (shadowed_tool_reached_by_server_name two_servers [] [] []
              config_A config_B "n" (init, []) ∅ None None
              config_AB_NoDup Hc eq_refl)
    as (sa & sb & Hha & Hhb & Hauto & Hexplicit).
  injection Hha as <-. injection Hhb as <-.
  split; [exact Hauto | exact Hexplicit].
Defined.

(** A provider configured under the empty name connects and registers
    like any other, but [if not server_name] takes the empty name found
    in the routing table for a missing entry: a tool that this provider
    is the last to advertise is reported as "Unknown tool" by an
    auto-routed call, and is reached only by passing the empty name
    explicitly. *)
Theorem empty_server_name_is_not_auto_routed (world : World)
  (config : MCPServersConfig) (w : Mem) (server_config : ServerConfig)
  (session : ClientSession.t) (name : string) (arguments : gmap string Json)
  (read_timeout_seconds : option Z) (progress_callback : option nat) :
  NoDup config.*1 ->
  ("", server_config) ∈ config ->
  handshake world "" server_config = inr session ->
  name ∈ advertised_tools session ->
  last_owner advertised_tools world config name = Some "" ->
  let self := (connect_all world (inr config) w).2.1 in
  tool_to_server self !! name = Some "" /\
  call_tool self name arguments read_timeout_seconds progress_callback None =
    Returned (_create_error_result ("Unknown tool: " +:+ name)) /\
  call_tool self name arguments read_timeout_seconds progress_callback
    (Some "") =
    Forwarded session
      (Call_tool name arguments read_timeout_seconds progress_callback).
Proof.
  intros Hnd Hin Hh Hadv Hlast self. destruct w as [c l].
  assert (self = foldl (after_connect world) c config) as Hself
    by apply connect_all_client.
  assert (tool_to_server self !! name = Some "") as Htable
    by (by rewrite Hself, tool_to_server_after, Hlast).
  refine (conj Htable (conj _ _)).
  - unfold call_tool. by rewrite Htable.
  - destruct (registered_provider world config c "" server_config session)
      as [Hs Hsnap]; [done..|].
    destruct (advertised_tools_snapshot "" session name Hadv)
      as (result & Hres & Hname).
    rewrite Hself. by eapply call_tool_explicit.
Qed.

Lemma empty_server_name_is_not_auto_routed_witness :
  NoDup [config_unnamed].*1 /\
  config_unnamed ∈ [config_unnamed] /\
  call_tool client_unnamed "u" ∅ None None None =
    Returned (_create_error_result "Unknown tool: u") /\
  call_tool client_unnamed "u" ∅ None None (Some "") =
    Forwarded session_U (Call_tool "u" ∅ None None).
Proof.
  assert (NoDup [config_unnamed].*1) as Hnd.
  { apply (bool_decide_unpack (NoDup _)). vm_compute. exact I. }
  assert (config_unnamed ∈ [config_unnamed]) as Hin by (by left).
  split; [exact Hnd|]. split; [exact Hin|].
  refine (proj2 (empty_server_name_is_not_auto_routed unnamed_server
            [config_unnamed] (init, []) config_unnamed.2 session_U "u" ∅
            None None Hnd Hin eq_refl _ _)).
  - by left.
  - vm_compute. reflexivity.
Defined.

(** ** What a listing shows can be called *)

Lemma NoDup_dict_set {V} (d : list (string * V)) k v :
  NoDup (dict_keys d) -> NoDup (dict_keys (dict_set k v d)).
Proof.
  intros Hnd. destruct (decide (k ∈ dict_keys d)) as [Hin|Hnotin].
  - assert (dict_keys (dict_set k v d) = dict_keys d) as ->; [|done].
    unfold dict_keys in *. induction d as [|[k' v'] d IH]; cbn.
    + by apply elem_of_nil in Hin.
    + destruct (decide (k = k')) as [->|Hne]; [done|]. cbn.
      f_equal. apply IH.
      * by apply NoDup_cons in Hnd as [_ ?].
      * cbn in Hin. apply elem_of_cons in Hin as [?|?]; done.
  - rewrite dict_set_fresh by done. unfold dict_keys in *.
    rewrite fmap_app. apply NoDup_app. split; [done|].
    split; [|apply NoDup_singleton].
    intros x Hx Hx'. apply list_elem_of_singleton in Hx' as ->. done.
Qed.

Lemma NoDup_keys_loop world (config : MCPServersConfig) self :
  NoDup (dict_keys (capabilities self)) ->
  NoDup (dict_keys (capabilities (foldl (after_connect world) self config))).
Proof.
  revert self. induction config as [|entry config IH]; intros self H; [done|].
  cbn [foldl]. apply IH. unfold after_connect.
  destruct (handshake world entry.1 entry.2); [done|].
  cbn. by apply NoDup_dict_set.
Qed.

Lemma reachable_keys_NoDup self :
  reachable self -> NoDup (dict_keys (capabilities self)).
Proof.
  induction 1 as [|world [e|config] self log _ IH].
  - apply NoDup_nil_2.
  - by rewrite run_connect_all_not_loaded.
  - rewrite connect_all_client. by apply NoDup_keys_loop.
Qed.

Lemma elem_of_aggregated_inv {A}
  (entries : ServerCapabilities -> option (list A))
  (attribute : string -> A -> A) self listed :
  listed ∈ aggregated entries attribute self ->
  exists server_name snap es x,
    (server_name, snap) ∈ capabilities self /\
    entries snap = Some es /\ x ∈ es /\
    listed = attribute server_name x.
Proof.
  unfold aggregated. intros Hin.
  apply list_elem_of_In, in_flat_map in Hin as ([k snap] & Hsnap & Hin).
  apply list_elem_of_In in Hsnap, Hin.
  destruct (entries snap) as [es|] eqn:Hes; cbn in Hin;
    [|by apply elem_of_nil in Hin].
  apply list_elem_of_fmap in Hin as (x & -> & Hx).
  by exists k, snap, es, x.
Qed.

(** On every client a program can hold, each tool that [list_tools]
    shows can be called as shown: its meta names a server that has a
    session, and [call_tool] with the listed name and that server is
    handed to that session, whatever the routing table says about the
    name. *)
Theorem listed_tools_are_callable (self : MultiServerClient)
  (log : list LogRecord) (arguments : gmap string Json)
  (read_timeout_seconds : option Z) (progress_callback : option nat)
  (listing : ListToolsResult) (listed : Tool) :
  reachable self ->
  (list_tools None (self, log)).1 = inr listing ->
  listed ∈ tools listing ->
  exists server_name session,
    meta_of (tool_meta listed) !! "serverName" = Some (JStr server_name) /\
    sessions self !! server_name = Some session /\
    call_tool self (tool_name listed) arguments read_timeout_seconds
      progress_callback (Some server_name) =
    Forwarded session
      (Call_tool (tool_name listed) arguments read_timeout_seconds
         progress_callback).
Proof.
  intros Hreach Hlist Hin.
  rewrite list_tools_aggregated in Hlist. injection Hlist as <-.
  cbn [tools] in Hin.
  apply elem_of_aggregated_inv in Hin
    as (k & snap & es & t & Hsnap & Hes & Ht & ->).
  destruct (caps_tools snap) as [result|] eqn:Hres; [|done].
  injection Hes as <-.
  apply dict_get_NoDup in Hsnap; [|by apply reachable_keys_NoDup].
  destruct (reachable_consistent self Hreach) as (Hkeys & _).
  destruct (proj2 (Hkeys k)) as [session Hs]; [by rewrite Hsnap|].
  exists k, session. split; [apply lookup_insert_eq|]. split; [done|].
  eapply call_tool_explicit; [done..|]. cbn.
  by apply list_elem_of_fmap_2.
Qed.

Lemma listed_tools_are_callable_witness :
  reachable client_AB /\
  attributed_tool "A" (plain_tool "n")
    ∈ aggregated (fun snap => tools <$> caps_tools snap) attributed_tool
        client_AB /\
  exists server_name session,
    meta_of (tool_meta (attributed_tool "A" (plain_tool "n")))
      !! "serverName" = Some (JStr server_name) /\
    sessions client_AB !! server_name = Some session /\
    call_tool client_AB "n" ∅ None None (Some server_name) =
    Forwarded session (Call_tool "n" ∅ None None).
Proof.
  assert (attributed_tool "A" (plain_tool "n")
            ∈ aggregated (fun snap => tools <$> caps_tools snap)
                attributed_tool client_AB) as Hin.
  { vm_compute. right. left. }
  split; [exact client_AB_reachable|]. split; [exact Hin|].
  exact (listed_tools_are_callable client_AB [] ∅ None None _ _
           client_AB_reachable (f_equal fst (list_tools_aggregated _ _)) Hin).
Defined.

(** The same for prompts: each prompt that [list_prompts] shows is
    fetched from the server its meta names when [get_prompt] is given
    that server. *)
Theorem listed_prompts_are_fetchable (self : MultiServerClient)
  (log : list LogRecord) (arguments : option (gmap string string))
  (listing : ListPromptsResult) (listed : Prompt) :
  reachable self ->
  (list_prompts None (self, log)).1 = inr listing ->
  listed ∈ prompts listing ->
  exists server_name session,
    meta_of (prompt_meta listed) !! "serverName" = Some (JStr server_name) /\
    sessions self !! server_name = Some session /\
    get_prompt self (prompt_name listed) arguments (Some server_name) =
    Forwarded session (Get_prompt (prompt_name listed) (default ∅ arguments)).
Proof.
  intros Hreach Hlist Hin.
  rewrite list_prompts_aggregated in Hlist. injection Hlist as <-.
  cbn [prompts] in Hin.
  apply elem_of_aggregated_inv in Hin
    as (k & snap & es & t & Hsnap & Hes & Ht & ->).
  destruct (caps_prompts snap) as [result|] eqn:Hres; [|done].
  injection Hes as <-.
  apply dict_get_NoDup in Hsnap; [|by apply reachable_keys_NoDup].
  destruct (reachable_consistent self Hreach) as (Hkeys & _).
  destruct (proj2 (Hkeys k)) as [session Hs]; [by rewrite Hsnap|].
  exists k, session. split; [apply lookup_insert_eq|]. split; [done|].
  unfold get_prompt. rewrite decide_True by (by rewrite Hs).
  rewrite Hsnap, Hres. cbn [prompt_name attributed_prompt].
  rewrite decide_True by (by apply list_elem_of_fmap_2). by rewrite Hs.
Qed.

Lemma listed_prompts_are_fetchable_witness :
  reachable client_AB /\
  attributed_prompt "A" (plain_prompt "p")
    ∈ aggregated (fun snap => prompts <$> caps_prompts snap)
        attributed_prompt client_AB /\
  exists server_name session,
    meta_of (prompt_meta (attributed_prompt "A" (plain_prompt "p")))
      !! "serverName" = Some (JStr server_name) /\
    sessions client_AB !! server_name = Some session /\
    get_prompt client_AB "p" None (Some server_name) =
    Forwarded session (Get_prompt "p" ∅).
Proof.
  assert (attributed_prompt "A" (plain_prompt "p")
            ∈ aggregated (fun snap => prompts <$> caps_prompts snap)
                attributed_prompt client_AB) as Hin.
  { vm_compute. left. }
  split; [exact client_AB_reachable|]. split; [exact Hin|].
  exact (listed_prompts_are_fetchable client_AB [] None _ _
           client_AB_reachable (f_equal fst (list_prompts_aggregated _ _))
           Hin).
Defined.



(** ** Namespaced URIs *)

Lemma length_append (a b : string) :
  String.length (a +:+ b) = String.length a + String.length b.
Proof.
  induction a as [|c a IH]; [done|].
  rewrite append_cons. cbn. by rewrite IH.
Qed.

Lemma append_not_longer (a b : string) : a +:+ ":" +:+ b <> b.
Proof.
  intros H. apply (f_equal String.length) in H.
  rewrite !length_append in H. cbn in H. lia.
Qed.

Lemma append_assoc (a b c : string) : (a +:+ b) +:+ c = a +:+ b +:+ c.
Proof.
  induction a as [|x a IH]; [done|].
  rewrite !append_cons. by rewrite IH.
Qed.

Lemma append_colon_assoc (q r u : string) :
  (q +:+ ":" +:+ r) +:+ ":" +:+ u = q +:+ ":" +:+ (r +:+ ":" +:+ u).
Proof. by rewrite append_assoc. Qed.

Lemma parse_namespace_uri_colon p u :
  contains_colon p = false ->
  parse_namespace_uri (p +:+ ":" +:+ u) = (Some p, u).
Proof.
  intros Hp. unfold parse_namespace_uri.
  by rewrite contains_colon_app, split_colon_once_app.
Qed.

(** Formatting and then parsing gives back the server name and the URI
    exactly when the server name has no colon; a colon inside the URI
    does no harm. *)
Theorem parse_format_round_trip (server_name uri : string) :
  parse_namespace_uri (format_namespace_uri server_name uri)
    = (Some server_name, uri) <->
  contains_colon server_name = false.
Proof.
  unfold format_namespace_uri. split.
  - intros Hparse. destruct (contains_colon server_name) eqn:Hc; [|done].
    destruct (contains_colon_split server_name Hc) as (q & r & -> & Hq).
    rewrite append_colon_assoc in Hparse.
    rewrite (parse_namespace_uri_colon q) in Hparse by done.
    injection Hparse as _ Huri.
    by apply append_not_longer in Huri.
  - apply parse_namespace_uri_colon.
Qed.

Lemma parse_format_round_trip_witness :
  contains_colon "filesystem" = false /\
  parse_namespace_uri (format_namespace_uri "filesystem" "file:///a:b")
    = (Some "filesystem", "file:///a:b").
Proof.
  split; [reflexivity|].
  apply (proj2 (parse_format_round_trip "filesystem" "file:///a:b")).
  reflexivity.
Defined.

(** Parsing loses nothing: a parsed pair formats back to the string it
    came from, its server part being the text before the leftmost
    colon; and the answer without a server is given exactly for the
    strings without colon, which are returned whole. *)
Theorem parse_namespace_uri_inverse (namespaced_uri : string) :
  match parse_namespace_uri namespaced_uri with
  | (Some server_name, uri) =>
      format_namespace_uri server_name uri = namespaced_uri /\
      contains_colon server_name = false /\
      contains_colon namespaced_uri = true
  | (None, uri) =>
      uri = namespaced_uri /\ contains_colon namespaced_uri = false
  end.
Proof.
  destruct (contains_colon namespaced_uri) eqn:Hc.
  - destruct (contains_colon_split namespaced_uri Hc) as (p & u & -> & Hp).
    by rewrite parse_namespace_uri_colon.
  - unfold parse_namespace_uri. by rewrite Hc.
Qed.





(** ** URI templates *)

Lemma contains_char_append c (a b : string) :
  contains_char c (a +:+ b) = contains_char c a || contains_char c b.
Proof.
  induction a as [|x a IH]; [done|].
  rewrite append_cons. cbn. by destruct (Ascii.eqb x c).
Qed.

Lemma append_snoc (a : string) c (s : string) :
  (a +:+ String c "") +:+ s = a +:+ String c s.
Proof. by rewrite append_assoc. Qed.

Lemma findall_braces_sound inside s v :
  v ∈ findall_braces inside s ->
  match inside with
  | None => True
  | Some acc => contains_char "}" acc = false
  end ->
  (v <> "" /\ contains_char "}" v = false) /\
  exists pre post,
    match inside with
    | None => s
    | Some acc => "{" +:+ acc +:+ s
    end = pre +:+ "{" +:+ v +:+ "}" +:+ post.
Proof.
  revert inside. induction s as [|c s IH]; intros inside Hin Hacc;
    [by apply elem_of_nil in Hin|].
  cbn [findall_braces] in Hin. destruct inside as [acc|].
  - destruct (Ascii.eqb c "}") eqn:Hc.
    + apply Ascii.eqb_eq in Hc as ->. destruct acc as [|a acc].
      * destruct (IH None Hin I) as [Hv (pre & post & ->)].
        split; [done|]. by exists ("{}" +:+ pre), post.
      * apply elem_of_cons in Hin as [->|Hin].
        { split; [done|]. by exists "", s. }
        destruct (IH None Hin I) as [Hv (pre & post & ->)].
        split; [done|].
        exists ("{" +:+ String a acc +:+ "}" +:+ pre), post.
        by rewrite !append_assoc.
    + destruct (IH (Some (acc +:+ String c "")) Hin) as [Hv (pre & post & Heq)].
      { rewrite contains_char_append, Hacc. cbn. by rewrite Hc. }
      split; [done|]. exists pre, post. rewrite <- Heq.
      by rewrite append_snoc.
  - destruct (Ascii.eqb c "{") eqn:Hc.
    + apply Ascii.eqb_eq in Hc as ->.
      destruct (IH (Some "") Hin eq_refl) as [Hv (pre & post & Heq)].
      split; [done|]. by exists pre, post.
    + destruct (IH None Hin I) as [Hv (pre & post & ->)].
      split; [done|]. by exists (String c pre), post.
Qed.

(** Every variable that [extract_template_variables] returns is a
    placeholder of the template: it is not empty, contains no closing
    brace, and the template contains it between an opening and a
    closing brace, so [substitute_template_variables] finds it. *)
Theorem extracted_variables_are_placeholders (uri_template v : string) :
  v ∈ extract_template_variables uri_template ->
  v <> "" /\ contains_char "}" v = false /\
  exists pre post, uri_template = pre +:+ "{" +:+ v +:+ "}" +:+ post.
Proof.
  intros Hin.
  destruct (findall_braces_sound None uri_template v Hin I)
    as [[Hne Hclose] Hocc].
  by repeat split.
Qed.

Lemma extracted_variables_are_placeholders_witness :
  "{a" ∈ extract_template_variables "x{{a}/{}" /\
  contains_char "}" "{a" = false.
Proof.
  assert ("{a" ∈ extract_template_variables "x{{a}/{}") as Hin
    by (vm_compute; left).
  split; [exact Hin|].
  exact (proj1 (proj2 (extracted_variables_are_placeholders _ _ Hin))).
Defined.

Lemma findall_braces_no_open s :
  contains_char "{" s = false -> findall_braces None s = [].
Proof.
  induction s as [|c s IH]; [done|]. cbn.
  destruct (Ascii.eqb c "{"); [done | exact IH].
Qed.

Lemma findall_braces_close acc v post :
  contains_char "}" v = false ->
  acc +:+ v <> "" ->
  findall_braces (Some acc) (v +:+ "}" +:+ post) =
  (acc +:+ v) :: findall_braces None post.
Proof.
  revert acc. induction v as [|c v IH]; intros acc Hv Hne.
  - rewrite append_nil. cbn.
    assert (acc +:+ "" = acc) as Hacc
      by (clear; induction acc as [|x acc IH]; [done|];
          by rewrite append_cons, IH).
    rewrite Hacc in *. by destruct acc.
  - rewrite append_cons. cbn [findall_braces]. cbn in Hv.
    destruct (Ascii.eqb c "}"); [done|].
    rewrite IH; [by rewrite append_snoc|done|].
    rewrite append_snoc. clear. destruct acc; discriminate.
Qed.

(** How [extract_template_variables] reads a template: nothing when
    there is no opening brace; and a template that starts with text
    free of opening braces followed by a placeholder [{v}] ([v] not
    empty and without closing brace) yields [v] and then whatever the
    rest of the template yields. *)
Theorem extract_template_variables_unfold :
  (forall uri_template,
     contains_char "{" uri_template = false ->
     extract_template_variables uri_template = []) /\
  (forall pre v post,
     contains_char "{" pre = false ->
     v <> "" ->
     contains_char "}" v = false ->
     extract_template_variables (pre +:+ "{" +:+ v +:+ "}" +:+ post) =
     v :: extract_template_variables post).
Proof.
  split; [apply findall_braces_no_open|].
  intros pre v post Hpre Hne Hv. unfold extract_template_variables.
  induction pre as [|c pre IH].
  - rewrite append_nil.
    change ("{" +:+ v +:+ "}" +:+ post) with (String "{" (v +:+ "}" +:+ post)).
    cbn [findall_braces]. cbn.
    by rewrite (findall_braces_close "" v post).
  - rewrite append_cons. cbn [findall_braces]. cbn in Hpre.
    destruct (Ascii.eqb c "{"); [done|]. by apply IH.
Qed.

Lemma extract_template_variables_unfold_witness :
  contains_char "{" "users/" = false /\ "id" <> "" /\
  contains_char "}" "id" = false /\
  extract_template_variables "users/{id}/posts/{post_id}" =
  "id" :: extract_template_variables "/posts/{post_id}".
Proof.
  split; [reflexivity|]. split; [discriminate|]. split; [reflexivity|].
  apply (proj2 extract_template_variables_unfold "users/" "id"
           "/posts/{post_id}"); [reflexivity | discriminate | reflexivity].
Defined.

Lemma hex_digit_safe n : n < 16 -> always_safe (hex_digit n) = true.
Proof.
  intros Hn. do 16 (destruct n as [|n]; [reflexivity|]). lia.
Qed.

Lemma contains_char_quote_byte c x :
  contains_char c (quote_byte x) = true ->
  always_safe c = true \/ c = "%"%char.
Proof.
  unfold quote_byte. destruct (always_safe x) eqn:Hx; cbn [contains_char].
  - destruct (Ascii.eqb x c) eqn:Hxc; [|done].
    apply Ascii.eqb_eq in Hxc as <-. by left.
  - assert (nat_of_ascii x < 256) as Hlt by apply nat_ascii_bounded.
    destruct (Ascii.eqb "%" c) eqn:H1;
      [apply Ascii.eqb_eq in H1 as <-; by right|].
    destruct (Ascii.eqb (hex_digit (nat_of_ascii x / 16)) c) eqn:H2.
    { apply Ascii.eqb_eq in H2 as <-. intros _. left.
      apply hex_digit_safe, Nat.Div0.div_lt_upper_bound. lia. }
    destruct (Ascii.eqb (hex_digit (nat_of_ascii x mod 16)) c) eqn:H3;
      [|done].
    apply Ascii.eqb_eq in H3 as <-. intros _. left.
    apply hex_digit_safe, Nat.mod_upper_bound. lia.
Qed.

Lemma contains_char_quote c value :
  contains_char c (quote value) = true ->
  always_safe c = true \/ c = "%"%char.
Proof.
  induction value as [|x value IH]; cbn [quote]; [done|].
  rewrite contains_char_append. intros [H|H]%orb_true_iff.
  - by eapply contains_char_quote_byte.
  - by apply IH.
Qed.

(** [quote(value, safe="")] writes letters, digits, [_.-~] and percent
    signs only.  So an encoded value never contains a brace, a colon or
    a slash: substituting it cannot create a placeholder, a namespace
    prefix or a path segment. *)
Theorem quote_output_alphabet (value : string) :
  (forall c, contains_char c (quote value) = true ->
             always_safe c = true \/ c = "%"%char) /\
  contains_char "{" (quote value) = false /\
  contains_char "}" (quote value) = false /\
  contains_char ":" (quote value) = false /\
  contains_char "/" (quote value) = false.
Proof.
  split; [intros c; apply contains_char_quote|].
  repeat split;
    match goal with
    | |- contains_char ?c _ = false =>
        destruct (contains_char c (quote value)) eqn:H; [|done];
        by destruct (contains_char_quote c value H)
    end.
Qed.

Lemma quote_output_alphabet_witness :
  contains_char "%" (quote "a b") = true /\
  (always_safe "%" = true \/ "%"%char = "%"%char).
Proof.
  split; [reflexivity|].
  apply (proj1 (quote_output_alphabet "a b") "%"%char). reflexivity.
Defined.

Lemma prefix_no_open (old s : string) :
  contains_char "{" s = false -> String.prefix (String "{" old) s = false.
Proof.
  destruct s as [|c s]; [done|]. cbn [String.prefix contains_char].
  destruct (ascii_dec "{" c) as [<-|Hne]; [|done].
  by rewrite Ascii.eqb_refl.
Qed.

Lemma replace_from_no_open (old new s : string) :
  contains_char "{" s = false ->
  replace_from (String "{" old) new 0 s = s.
Proof.
  induction s as [|c s IH]; [done|]. intros Hs.
  cbn [replace_from]. rewrite prefix_no_open by done.
  cbn in Hs. destruct (Ascii.eqb c "{"); [done|]. by rewrite IH.
Qed.

Lemma replace_from_skip (old new a s : string) :
  replace_from old new (String.length a) (a +:+ s) = replace_from old new 0 s.
Proof.
  induction a as [|c a IH]; [done|].
  rewrite append_cons. cbn [String.length replace_from]. exact IH.
Qed.

Lemma prefix_append (a s : string) : String.prefix a (a +:+ s) = true.
Proof.
  induction a as [|c a IH]; [by destruct s|].
  rewrite append_cons. cbn [String.prefix]. by destruct (ascii_dec c c).
Qed.

Lemma replace_from_occurrence (old' new post : string) :
  contains_char "{" post = false ->
  replace_from (String "{" old') new 0 (String "{" old' +:+ post) =
  new +:+ post.
Proof.
  intros Hpost.
  assert (String.prefix (String "{" old') (String "{" (old' +:+ post)) = true)
    as Hp by apply (prefix_append (String "{" old') post).
  rewrite append_cons. cbn [replace_from]. rewrite Hp.
  replace (String.length (String "{" old') - 1) with (String.length old')
    by (cbn [String.length]; lia).
  by rewrite replace_from_skip, replace_from_no_open.
Qed.

Lemma replace_from_pre (old' new pre rest : string) :
  contains_char "{" pre = false ->
  replace_from (String "{" old') new 0 (pre +:+ rest) =
  pre +:+ replace_from (String "{" old') new 0 rest.
Proof.
  induction pre as [|c pre IH]; [done|]. intros Hpre.
  rewrite !append_cons. cbn [replace_from]. cbn [contains_char] in Hpre.
  assert (String.prefix (String "{" old') (String c (pre +:+ rest)) = false)
    as ->.
  { cbn [String.prefix]. destruct (ascii_dec "{" c) as [<-|]; [|done].
    by rewrite Ascii.eqb_refl in Hpre. }
  destruct (Ascii.eqb c "{"); [done|]. by rewrite IH.
Qed.

(** A template without opening brace has no placeholder, and
    [substitute_template_variables] returns it unchanged whatever the
    variables. *)
Theorem substitute_without_placeholder (uri_template : string)
  (variables : list (string * string)) :
  contains_char "{" uri_template = false ->
  substitute_template_variables uri_template variables = uri_template.
Proof.
  intros Ht. unfold substitute_template_variables.
  induction variables as [|[var value] variables IH]; [done|].
  cbn [foldl]. unfold str_replace.
  change ("{" +:+ var +:+ "}") with (String "{" (var +:+ "}")).
  by rewrite replace_from_no_open.
Qed.

Lemma substitute_without_placeholder_witness :
  contains_char "{" "users/all" = false /\
  substitute_template_variables "users/all" [("id", "1 2")] = "users/all".
Proof.
  split; [reflexivity|].
  by apply substitute_without_placeholder.
Defined.

(** A template with one placeholder, [pre{var}post] with no other
    opening brace, given a value for [var], becomes [pre], the
    percent-encoded value, and [post]; the result has no opening brace
    left. *)
Theorem substitute_single_placeholder (pre var value post : string) :
  contains_char "{" pre = false ->
  contains_char "{" post = false ->
  substitute_template_variables (pre +:+ "{" +:+ var +:+ "}" +:+ post)
    [(var, value)] = pre +:+ quote value +:+ post /\
  contains_char "{" (pre +:+ quote value +:+ post) = false.
Proof.
  intros Hpre Hpost. split.
  - unfold substitute_template_variables. cbn [foldl]. unfold str_replace.
    assert ("{" +:+ var +:+ "}" +:+ post = String "{" (var +:+ "}") +:+ post)
      as -> by (by rewrite (append_cons "{" (var +:+ "}") post),
                           (append_assoc var "}" post)).
    change ("{" +:+ var +:+ "}") with (String "{" (var +:+ "}")).
    by rewrite replace_from_pre, replace_from_occurrence.
  - rewrite !contains_char_append, Hpre, Hpost.
    destruct (contains_char "{" (quote value)) eqn:Hq; [|done].
    by destruct (contains_char_quote "{" value Hq).
Qed.

Lemma substitute_single_placeholder_witness :
  contains_char "{" "file:///" = false /\
  contains_char "{" "/report.txt" = false /\
  substitute_template_variables "file:///{path}/report.txt"
    [("path", "my documents")] = "file:///my%20documents/report.txt".
Proof.
  split; [reflexivity|]. split; [reflexivity|].
  exact (proj1 (substitute_single_placeholder "file:///" "path"
                  "my documents" "/report.txt" eq_refl eq_refl)).
Defined.

(** ** Every listed tool can be called by name *)

Lemma tools_bound_after_connect world self entry :
  (forall k snap result name,
     dict_get k (capabilities self) = Some snap ->
     caps_tools snap = Some result ->
     name ∈ tool_name <$> tools result ->
     is_Some (tool_to_server self !! name)) ->
  forall k snap result name,
    dict_get k (capabilities (after_connect world self entry)) = Some snap ->
    caps_tools snap = Some result ->
    name ∈ tool_name <$> tools result ->
    is_Some (tool_to_server (after_connect world self entry) !! name).
Proof.
  intros Hbound k snap result name. unfold after_connect.
  destruct (handshake world entry.1 entry.2) as [e|session];
    [apply Hbound|].
  cbn [registered capabilities tool_to_server].
  destruct (decide (entry.1 = k)) as [<-|Hne].
  - rewrite dict_get_set_eq. intros [= <-]. cbn [snapshot caps_tools].
    intros Hres Hin. rewrite lookup_bind_all.
    rewrite bool_decide_eq_true_2; [by eexists|].
    unfold advertised_tools.
    by destruct (ClientSession.list_tools session) as [|r];
      [|injection Hres as ->].
  - rewrite dict_get_set_ne by done. intros Hsnap Hres Hin.
    apply is_Some_bind_all. by eapply Hbound.
Qed.

Lemma reachable_tools_bound self :
  reachable self ->
  forall k snap result name,
    dict_get k (capabilities self) = Some snap ->
    caps_tools snap = Some result ->
    name ∈ tool_name <$> tools result ->
    is_Some (tool_to_server self !! name).
Proof.
  induction 1 as [|world [e|config] self log _ IH].
  - intros k snap result name Hsnap. discriminate.
  - by rewrite run_connect_all_not_loaded.
  - rewrite connect_all_client. clear log. revert self IH.
    induction config as [|entry config IHc]; intros self IH; [done|].
    cbn [foldl]. apply IHc. by apply tools_bound_after_connect.
Qed.

(** On every client a program can hold, each function that
    [mcp_tools_to_openai_format] makes of the tool listing has a name
    the routing table binds to a server with a session; unless that
    server is configured under the empty name, [call_tool] with the
    name alone is handed to that server's session.  (After a collision
    the owner need not be the server the listed entry came from.) *)
Theorem listed_functions_are_routable (self : MultiServerClient)
  (log : list LogRecord) (listing : ListToolsResult) (function : Json)
  (arguments : gmap string Json) (read_timeout_seconds : option Z)
  (progress_callback : option nat) :
  reachable self ->
  (list_tools None (self, log)).1 = inr listing ->
  function ∈ mcp_tools_to_openai_format (tools listing) ->
  exists listed owner session,
    listed ∈ tools listing /\
    function = openai_function listed /\
    tool_to_server self !! tool_name listed = Some owner /\
    sessions self !! owner = Some session /\
    (truthy owner = true ->
     call_tool self (tool_name listed) arguments read_timeout_seconds
       progress_callback None =
     Forwarded session
       (Call_tool (tool_name listed) arguments read_timeout_seconds
          progress_callback)).
Proof.
  intros Hreach Hlist Hin. unfold mcp_tools_to_openai_format in Hin.
  apply list_elem_of_fmap in Hin as (listed & -> & Hlisted).
  assert (Hlisted' := Hlisted).
  rewrite list_tools_aggregated in Hlist. injection Hlist as <-.
  cbn [tools] in Hlisted'.
  apply elem_of_aggregated_inv in Hlisted'
    as (k & snap & es & t & Hsnap & Hes & Ht & Heq).
  destruct (caps_tools snap) as [result|] eqn:Hres; [|done].
  injection Hes as <-.
  apply dict_get_NoDup in Hsnap; [|by apply reachable_keys_NoDup].
  destruct (reachable_tools_bound self Hreach k snap result (tool_name listed)
              Hsnap Hres) as [owner Howner].
  { rewrite Heq. cbn. by apply list_elem_of_fmap_2. }
  destruct (reachable_consistent self Hreach) as (_ & Htools & _).
  destruct (Htools _ _ Howner) as [session Hs].
  exists listed, owner, session. repeat split; [done..|].
  intros Htruthy. unfold call_tool. by rewrite Howner, Htruthy, Hs.
Qed.

Lemma listed_functions_are_routable_witness :
  reachable client_AB /\
  openai_function (attributed_tool "A" (plain_tool "n"))
    ∈ mcp_tools_to_openai_format
        (aggregated (fun snap => tools <$> caps_tools snap) attributed_tool
           client_AB) /\
  call_tool client_AB "n" ∅ None None None =
  Forwarded session_B (Call_tool "n" ∅ None None).
Proof.
  assert (openai_function (attributed_tool "A" (plain_tool "n"))
            ∈ mcp_tools_to_openai_format
                (aggregated (fun snap => tools <$> caps_tools snap)
                   attributed_tool client_AB)) as Hin.
  { vm_compute. right. left. }
  split; [exact client_AB_reachable|]. split; [exact Hin|].
  destruct (listed_functions_are_routable client_AB [] _ _ ∅ None None
              client_AB_reachable (f_equal fst (list_tools_aggregated _ _))
              Hin)
    as (listed & owner & session & _ & Heq & Howner & Hs & Hcall).
  injection Heq as Hname _ _.
  rewrite <- Hname in Howner, Hcall. cbn [tool_name attributed_tool plain_tool]
    in Howner, Hcall.
  assert (owner = "B") as ->.
  { vm_compute in Howner. by injection Howner. }
  assert (session = session_B) as ->.
  { vm_compute in Hs. by injection Hs. }
  exact (Hcall eq_refl).
Defined.
